(** * Mixture density network layer: parameter codec, sampling and loss

    A shallow embedding of [mdn/__init__.py].  Python integers are [Z],
    one-dimensional numpy arrays are lists, two-dimensional arrays are
    lists of rows.  The host-side sampling code (numpy) is written once
    over an interface of arithmetic operations and read at two instances:
    IEEE binary64, the arithmetic the code runs in, and the real numbers,
    the exact arithmetic that binary64 rounds.  The TensorFlow side is
    read over the real numbers, except for the scale activation and the
    closing reduction of the loss, which are written over the same
    interface.  What is stated of the code holds in every arithmetic or
    survives rounding; what holds only of exact arithmetic is said to.
    Random draws are explicit arguments of the functions that make
    them. *)

From Stdlib Require Import List Permutation ZArith Bool String QArith Reals Lra Lia Floats.
Import ListNotations.

Set Implicit Arguments.

(** ** Outcomes of a Python call: a value or an exception, plus the log *)

Inductive exn : Type :=
| ValueError (msg : string)
| InvalidArgumentError (msg : string).

Inductive outcome (A : Type) : Type :=
| Returns (a : A)
| Raises (e : exn).

Arguments Returns {A} a.
Arguments Raises {A} e.

(** A computation yields the lines it logged and its outcome. *)
Definition py (A : Type) : Type := (list string * outcome A)%type.

Definition ret {A} (a : A) : py A := ([], Returns a).
Definition raise {A} (e : exn) : py A := ([], Raises e).
Definition logging_info (msg : string) : py unit := ([msg], Returns tt).

Definition bind {A B} (m : py A) (f : A -> py B) : py B :=
  match m with
  | (l1, Returns a) => let (l2, o) := f a in (l1 ++ l2, o)
  | (l1, Raises e) => (l1, Raises e)
  end.

Declare Scope py_scope.
Delimit Scope py_scope with py.
Notation "x <- m ;; k" := (bind m (fun x => k))
  (at level 61, m at next level, right associativity) : py_scope.
Notation "' p <- m ;; k" := (bind m (fun p => k))
  (at level 61, p pattern, m at next level, right associativity) : py_scope.
Notation "m ;;; k" := (bind m (fun _ => k))
  (at level 61, right associativity) : py_scope.

Definition logged {A} (m : py A) : list string := fst m.
Definition result {A} (m : py A) : outcome A := snd m.

(** [raises m]: the call ends in some exception. *)
Definition raises {A} (m : py A) : Prop := exists e, result m = Raises e.

(** ** Python slicing [a[lo:hi]] with step 1

    A negative bound counts from the end; bounds are clamped to
    [0 .. len a]; an absent bound is the corresponding end. *)

Definition len {A} (l : list A) : Z := Z.of_nat (List.length l).

Definition slice_index (n : Z) (i : Z) : Z :=
  if (i <? 0)%Z then Z.max (i + n) 0 else Z.min i n.

Definition py_slice {A} (l : list A) (lo hi : option Z) : list A :=
  let n := len l in
  let start := match lo with Some i => slice_index n i | None => 0%Z end in
  let stop := match hi with Some i => slice_index n i | None => n end in
  firstn (Z.to_nat (stop - start)) (skipn (Z.to_nat start) l).

(** ** [split_mixture_params] *)

Definition split_mixture_params {A} (params : list A) (output_dim num_mixes : Z)
  : py (list A * list A * list A) :=
  let mus := py_slice params None (Some (num_mixes * output_dim)%Z) in
  let sigs := py_slice params (Some (num_mixes * output_dim)%Z)
                              (Some (2 * num_mixes * output_dim)%Z) in
  let pi_logits := py_slice params (Some (- num_mixes)%Z) None in
  ret (mus, sigs, pi_logits).

(** ** The arithmetic the numpy code is written over

    [n_geb x y] is Python's [x >= y]. *)

Class Arith (A : Type) : Type := {
  n_zero : A;
  n_one : A;
  n_add : A -> A -> A;
  n_sub : A -> A -> A;
  n_mul : A -> A -> A;
  n_div : A -> A -> A;
  n_max : A -> A -> A;
  n_geb : A -> A -> bool
}.

(** [np.exp]. *)
Class Exp (A : Type) : Type := { n_exp : A -> A }.

(** Real numbers: exact arithmetic, of which the floating-point
    operations are the rounded versions.  A statement read at this
    instance gives the value that the code's result approximates; it says
    nothing of overflow, of underflow or of NaN, and a division by 0 has
    the library's value, not the code's.  Statements that must hold of
    the code to the last bit are made for every instance, or at
    binary64. *)
#[export] Instance R_arith : Arith R := {
  n_zero := 0%R;
  n_one := 1%R;
  n_add := Rplus;
  n_sub := Rminus;
  n_mul := Rmult;
  n_div := Rdiv;
  n_max := Rmax;
  n_geb := fun x y => if Rle_dec y x then true else false
}.

#[export] Instance R_exp : Exp R := { n_exp := exp }.

(** IEEE binary64, numpy's [float64]: the arithmetic the sampling code
    runs in.  [np.max] hands on a NaN, whichever side it is on. *)
#[export] Instance binary64_arith : Arith float := {
  n_zero := 0%float;
  n_one := 1%float;
  n_add := PrimFloat.add;
  n_sub := PrimFloat.sub;
  n_mul := PrimFloat.mul;
  n_div := PrimFloat.div;
  n_max := fun x y =>
             if PrimFloat.is_nan x then x
             else if PrimFloat.is_nan y then y
             else if PrimFloat.ltb x y then y else x;
  n_geb := fun x y => PrimFloat.leb y x
}.

(** [np.exp] on binary64 goes through the platform's own routine, whose
    last bit differs from one platform to another.  [binary64_exp] agrees
    with all of them where the result is determined: a NaN stays a NaN,
    arguments from 710 on overflow to infinity, arguments down from -746
    underflow to 0, and 0 goes to 1.  In between it is an approximation
    (argument reduction by multiples of ln 2, then the exponential series
    to degree 13) whose digits no statement below relies on: the
    statements made at binary64 use the determined points only. *)

Definition binary64_integer (f : float) : Z :=
  match Prim2SF f with
  | S754_finite s m e => (if s then - Z.shiftl (Z.pos m) e else Z.shiftl (Z.pos m) e)%Z
  | _ => 0%Z
  end.

Definition binary64_exp_series (r : float) : float :=
  fold_right (fun k h => (1 + r / k * h)%float) 1%float
    [1; 2; 3; 4; 5; 6; 7; 8; 9; 10; 11; 12; 13]%float.

Definition binary64_exp (x : float) : float :=
  if PrimFloat.is_nan x then x
  else if PrimFloat.leb x (-746)%float then 0%float
  else if PrimFloat.leb 710%float x then infinity
  else
    let t := (x * 0x1.71547652b82fep+0)%float in
    let kf := ((t + 0x1.8p52) - 0x1.8p52)%float in
    let r := ((x - kf * 0x1.62e42fee00000p-1) - kf * 0x1.a39ef35793c76p-33)%float in
    Z.ldexp (binary64_exp_series r) (binary64_integer kf).

#[export] Instance binary64_exp_instance : Exp float := { n_exp := binary64_exp }.

(** The exact value of a finite binary64 number. *)
Definition binary64_to_Q (f : float) : Q :=
  match Prim2SF f with
  | S754_finite s m e =>
      (if s then - (inject_Z (Z.pos m) * Qpower 2 e) else inject_Z (Z.pos m) * Qpower 2 e)%Q
  | _ => 0%Q
  end.

(** Negation and the count of a reduction, for [tf.negative] and
    [tf.reduce_mean]. *)
Class Reducing (A : Type) : Type := {
  n_neg : A -> A;
  n_of_nat : nat -> A
}.

#[export] Instance R_reducing : Reducing R := { n_neg := Ropp; n_of_nat := INR }.

#[export] Instance binary64_reducing : Reducing float := {
  n_neg := PrimFloat.opp;
  n_of_nat := fun n => PrimFloat.of_uint63 (Uint63.of_Z (Z.of_nat n))
}.

Section Numpy.

Context {A : Type} `{Arith A}.

(** [np.sum] of a one-dimensional array: numpy's pairwise summation.
    Fewer than 8 entries are added from the left; up to 128 entries go
    through eight running sums, combined in pairs, and the entries left
    over are added one by one; longer arrays are cut in two at a multiple
    of 8.  The result is added to the initial value 0 of the reduction.
    (Recent numpy versions start the short sums from [-0.0]; this changes
    the sign of a sum that is zero and nothing else.) *)

Fixpoint zip_add (r blk : list A) : list A :=
  match r, blk with
  | x :: r', y :: blk' => n_add x y :: zip_add r' blk'
  | _, _ => r
  end.

Fixpoint unrolled_blocks (fuel : nat) (r rest : list A) : list A * list A :=
  match fuel with
  | O => (r, rest)
  | S fuel' =>
      if Nat.leb 8 (List.length rest)
      then unrolled_blocks fuel' (zip_add r (firstn 8 rest)) (skipn 8 rest)
      else (r, rest)
  end.

Definition sum_of_eight (r : list A) : A :=
  match r with
  | [r0; r1; r2; r3; r4; r5; r6; r7] =>
      n_add (n_add (n_add r0 r1) (n_add r2 r3)) (n_add (n_add r4 r5) (n_add r6 r7))
  | _ => fold_left n_add r n_zero
  end.

Fixpoint pairwise_sum (fuel : nat) (a : list A) : A :=
  let n := List.length a in
  if Nat.ltb n 8 then fold_left n_add a n_zero
  else if Nat.leb n 128 then
    let '(r, rest) := unrolled_blocks n (firstn 8 a) (skipn 8 a) in
    fold_left n_add rest (sum_of_eight r)
  else
    match fuel with
    | O => fold_left n_add a n_zero
    | S fuel' =>
        let n2 := (n / 2 - (n / 2) mod 8)%nat in
        n_add (pairwise_sum fuel' (firstn n2 a)) (pairwise_sum fuel' (skipn n2 a))
    end.

Definition np_sum (l : list A) : A :=
  n_add n_zero (pairwise_sum (List.length l) l).

(** [sum_of l s]: [s] is a sum of the entries of [l], each taken once, in
    some order and some grouping of the additions, zeros being added
    along the way.  This is what a sum is in an arithmetic whose addition
    is neither associative nor exact. *)
Inductive sum_of : list A -> A -> Prop :=
| sum_of_nothing : sum_of [] n_zero
| sum_of_entry (x : A) : sum_of [x] x
| sum_of_add (l1 l2 : list A) (s1 s2 : A) :
    sum_of l1 s1 -> sum_of l2 s2 -> sum_of (l1 ++ l2) (n_add s1 s2)
| sum_of_reordered (l l' : list A) (s : A) :
    Permutation l l' -> sum_of l s -> sum_of l' s.

(** The entries that each of the running sums has taken, after one more
    block. *)
Fixpoint zip_snoc (Ms : list (list A)) (blk : list A) : list (list A) :=
  match Ms, blk with
  | M :: Ms', y :: blk' => (M ++ [y]) :: zip_snoc Ms' blk'
  | _, _ => Ms
  end.

(** [e.max()]: numpy refuses an empty array. *)
Definition np_max (l : list A) : py A :=
  match l with
  | [] => raise (ValueError "zero-size array to reduction operation maximum which has no identity")
  | x :: rest => ret (fold_left n_max rest x)
  end.

(** ** [softmax] *)

Definition softmax `{Exp A} (w : list A) (t : A) : py (list A) :=
  (let e := map (fun x => n_div x t) w in
   m <- np_max e ;;
   let e := map (fun x => n_sub x m) e in
   let e := map n_exp e in
   let s := np_sum e in
   let dist := map (fun x => n_div x s) e in
   ret dist)%py.

(** ** [sample_from_categorical]

    [r] is the value drawn by [np.random.rand(1)]. *)

Fixpoint categorical_loop (dist : list A) (r : A) (i : Z) (accumulate : A)
  : option Z :=
  match dist with
  | [] => None
  | d :: rest =>
      let accumulate := n_add accumulate d in
      if n_geb accumulate r then Some i
      else categorical_loop rest r (i + 1)%Z accumulate
  end.

(** [accumulate] after the entries [dist[0..i]] have been added to it. *)
Definition accumulated (acc : A) (dist : list A) (i : nat) : A :=
  fold_left n_add (firstn (S i) dist) acc.

Definition sample_from_categorical (dist : list A) (r : A) : py Z :=
  (match categorical_loop dist r 0%Z n_zero with
   | Some i => ret i
   | None => logging_info "Error sampling categorical model." ;;; ret (-1)%Z
   end)%py.

(** ** numpy primitives used by [sample_from_output]

    A two-dimensional array is the list of its rows. *)

Definition ncols (m : list (list A)) : nat :=
  match m with [] => 0 | row :: _ => List.length row end.

Definition np_identity (n : Z) : py (list (list A)) :=
  if (n <? 0)%Z then raise (ValueError "negative dimensions are not allowed")
  else
    let idx := seq 0 (Z.to_nat n) in
    ret (map (fun i => map (fun j => if Nat.eqb i j then n_one else n_zero) idx) idx).

(** [v * s] for a one-dimensional [v] and a scalar [s]. *)
Definition np_scale (v : list A) (s : A) : list A := map (fun x => n_mul x s) v.

Fixpoint zip_mul (row v : list A) : list A :=
  match row, v with
  | x :: row', y :: v' => n_mul x y :: zip_mul row' v'
  | _, _ => []
  end.

(** [m * v] for a two-dimensional [m] and a one-dimensional [v]: numpy
    lays [v] along every row of [m]; the row length of [m] and the length
    of [v] have to agree unless one of them is 1, which is then
    stretched. *)
Definition np_mul_2d_1d (m : list (list A)) (v : list A) : py (list (list A)) :=
  let c := ncols m in
  let n := List.length v in
  if Nat.eqb c n then ret (map (fun row => zip_mul row v) m)
  else if Nat.eqb n 1 then
    ret (map (fun row => map (fun x => n_mul x (hd n_zero v)) row) m)
  else if Nat.eqb c 1 then
    ret (map (fun row => map (fun y => n_mul (hd n_zero row) y) v) m)
  else raise (ValueError "operands could not be broadcast together").

(** The law of one draw of [np.random.multivariate_normal(mean, cov, 1)]:
    the normal distribution with that mean vector and covariance matrix.
    The draw itself is left to numpy; the checks it makes on the shapes
    of its arguments are kept (a covariance that is not positive
    semi-definite is only warned about). *)
Record mvn : Type := MultivariateNormal {
  mvn_mean : list A;
  mvn_cov : list (list A)
}.

Definition np_random_multivariate_normal (mean : list A) (cov : list (list A))
  : py mvn :=
  if negb (Nat.eqb (List.length cov) (ncols cov)) then
    raise (ValueError "cov must be 2 dimensional and square")
  else if negb (Nat.eqb (List.length mean) (List.length cov)) then
    raise (ValueError "mean and cov must have same length")
  else if Nat.eqb (List.length mean) 0 then
    raise (ValueError "a normal law of dimension 0 is refused")
  else ret (MultivariateNormal mean cov).

(** ** [sample_from_output]

    [draw_from_component] is the part of the function after the
    component index [m] has been chosen. *)

Definition draw_from_component (mus sigs : list A) (output_dim : Z) (m : Z)
  (sigma_temp : A) : py mvn :=
  (let mus_vector :=
     py_slice mus (Some (m * output_dim)%Z) (Some ((m + 1) * output_dim)%Z) in
   let sig_vector :=
     np_scale (py_slice sigs (Some (m * output_dim)%Z)
                             (Some ((m + 1) * output_dim)%Z)) sigma_temp in
   ident <- np_identity output_dim ;;
   cov_matrix <- np_mul_2d_1d ident sig_vector ;;
   np_random_multivariate_normal mus_vector cov_matrix)%py.

Definition sample_from_output `{Exp A} (params : list A)
  (output_dim num_mixes : Z) (temp sigma_temp : A) (r : A) : py mvn :=
  ('(mus, sigs, pi_logits) <- split_mixture_params params output_dim num_mixes ;;
   pis <- softmax pi_logits temp ;;
   m <- sample_from_categorical pis r ;;
   draw_from_component mus sigs output_dim m sigma_temp)%py.

(** The matrix with [delta_ij * v_j] in row [i], column [j], products
    taken in the arithmetic: what [np.identity(n) * v] holds for a [v] of
    [n] entries. *)
Definition identity_scaled (v : list A) : list (list A) :=
  map (fun i => map (fun j => n_mul (if Nat.eqb i j then n_one else n_zero)
                                    (nth j v n_zero))
                    (seq 0 (List.length v)))
      (seq 0 (List.length v)).

(** The diagonal matrix with the given diagonal. *)
Definition diag (d : list A) : list (list A) :=
  map (fun i => map (fun j => if Nat.eqb i j then nth i d n_zero else n_zero)
                    (seq 0 (List.length d)))
      (seq 0 (List.length d)).

End Numpy.

(** ** The Keras side, in any arithmetic *)

Section KerasArithmetic.

Context {A : Type} `{Arith A}.

(** ** [elu_plus_one_plus_epsilon]

    [tf.keras.backend.elu] with its default [alpha = 1]: TensorFlow
    selects [exp x - 1] where [x < 0] and [x] elsewhere.  [epsilon] is the
    backend's fuzz factor [tf.keras.backend.epsilon()]. *)

Definition elu `{Exp A} (x : A) : A :=
  if n_geb x n_zero then x else n_sub (n_exp x) n_one.

Definition elu_plus_one_plus_epsilon `{Exp A} (epsilon : A) (x : A) : A :=
  n_add (n_add (elu x) n_one) epsilon.

(** ** The reduction that closes [loss_func]: [tf.negative], then
    [tf.reduce_mean], the sum divided by the count.  The additions are
    written from the left; TensorFlow may group them otherwise, which no
    statement below depends on (over the reals the grouping is
    immaterial, and the binary64 example adds three equal values, whose
    sum is the same in every grouping). *)

Definition tf_reduce_mean `{Reducing A} (l : list A) : A :=
  n_div (fold_left n_add l n_zero) (n_of_nat (List.length l)).

Definition loss_reduction `{Reducing A} (log_prob : list A) : A :=
  let loss := map n_neg log_prob in
  tf_reduce_mean loss.

End KerasArithmetic.

(** ** The Keras side, over the real numbers *)

Section Keras.

Local Open Scope R_scope.

(** *** Tensor operations of the loss

    A tensor is given by its entries in row-major order;
    [tf.reshape(x, [-1, n])] regroups them into rows of length [n].  A
    negative [n] is refused.  For [n = 0] TensorFlow refuses every tensor
    that has entries, and of the empty one-dimensional tensor it makes
    one row of no entries. *)

Definition tf_reshape_rows (x : list R) (n : Z) : py (list (list R)) :=
  if (n <? 0)%Z then
    raise (InvalidArgumentError "reshape: a size is negative or left open twice")
  else if (n =? 0)%Z then
    match x with
    | [] => ret [[]]
    | _ :: _ =>
        raise (InvalidArgumentError "reshape: the values do not fit rows of length 0")
    end
  else if (len x mod n =? 0)%Z then
    let k := Z.to_nat n in
    ret (map (fun i => firstn k (skipn (i * k) x)) (seq 0 (List.length x / k)))
  else
    raise (InvalidArgumentError "reshape: the size is not a multiple of the row length").

(** The tensors that [tf.reshape(x, [-1, n])] does not fit into rows of
    length [n]. *)
Definition reshape_refused (x : list R) (n : Z) : Prop :=
  (n < 0)%Z \/ (n = 0%Z /\ x <> []) \/ ((0 < n)%Z /\ (len x mod n)%Z <> 0%Z).

(** [tf.split(row, sizes, axis=-1)] on one row; [tf_split_fits] is the
    check TensorFlow makes on the sizes. *)
Fixpoint tf_split (row : list R) (sizes : list Z) : list (list R) :=
  match sizes with
  | [] => []
  | s :: rest => firstn (Z.to_nat s) row :: tf_split (skipn (Z.to_nat s) row) rest
  end.

Definition tf_split_fits (dim : Z) (sizes : list Z) : bool :=
  forallb (fun s => (0 <=? s)%Z) sizes && (fold_right Z.add 0%Z sizes =? dim)%Z.

Definition reduce_sum (l : list R) : R := fold_right Rplus 0 l.

Definition reduce_mean (l : list R) : R := reduce_sum l / INR (List.length l).

(** [tf.reduce_max]; the empty case does not arise below, where every
    reduction is over [num_mixes >= 1] entries. *)
Definition reduce_max (l : list R) : R :=
  match l with
  | [] => 0
  | x :: rest => fold_left Rmax rest x
  end.

Definition reduce_logsumexp (l : list R) : R :=
  let m := reduce_max l in
  m + ln (reduce_sum (map (fun x => exp (x - m)) l)).

(** [tfd.Categorical(logits=...)]: the log-probabilities of the classes. *)
Definition categorical_log_probs (logits : list R) : list R :=
  let z := reduce_logsumexp logits in
  map (fun x => x - z) logits.

(** [tfd.MultivariateNormalDiag(loc, scale_diag).log_prob(x)]. *)
Fixpoint normal_diag_log_prob (loc scale x : list R) : R :=
  match loc, scale, x with
  | m :: loc', s :: scale', xi :: x' =>
      (- / 2 * ((xi - m) / s) ^ 2 - / 2 * ln (2 * PI) - ln (Rabs s))
      + normal_diag_log_prob loc' scale' x'
  | _, _, _ => 0
  end.

(** The covariance of [tfd.MultivariateNormalDiag(loc, scale_diag)]. *)
Definition normal_diag_covariance (scale : list R) : list (list R) :=
  diag (map (fun s => s * s) scale).

(** [tfd.Mixture(cat, components).log_prob(x)]. *)
Definition mixture_log_prob (logits : list R)
  (components : list (list R * list R)) (x : list R) : R :=
  reduce_logsumexp
    (map (fun '(lp, (loc, scale)) => lp + normal_diag_log_prob loc scale x)
         (combine (categorical_log_probs logits) components)).

(** The mixture components built from one row of predictions. *)
Definition mixture_of_row (output_dim num_mixes : Z) (row : list R)
  : list R * list (list R * list R) :=
  let parts := tf_split row [num_mixes * output_dim; num_mixes * output_dim; num_mixes]%Z in
  let out_mu := nth 0 parts [] in
  let out_sigma := nth 1 parts [] in
  let out_pi := nth 2 parts [] in
  let component_splits := repeat output_dim (Z.to_nat num_mixes) in
  let mus := tf_split out_mu component_splits in
  let sigs := tf_split out_sigma component_splits in
  (out_pi, combine mus sigs).

(** ** [get_mixture_sampling_fun]: the mixture that [sampling_func]
    samples one row from, as the class logits and the laws of the
    components. *)
Definition sampling_func_mixture (output_dim num_mixes : Z) (row : list R)
  : list R * list (@mvn R) :=
  let '(out_pi, coll) := mixture_of_row output_dim num_mixes row in
  (out_pi,
   map (fun '(loc, scale) => MultivariateNormal loc (normal_diag_covariance scale))
       coll).

Definition row_log_prob (output_dim num_mixes : Z) (y p : list R) : R :=
  let '(out_pi, coll) := mixture_of_row output_dim num_mixes p in
  mixture_log_prob out_pi coll y.

(** Rows of targets against rows of predictions: equal counts pair up,
    a single row is repeated against the others. *)
Definition broadcast_rows (ys ps : list (list R))
  : py (list (list R * list R)) :=
  if Nat.eqb (List.length ys) (List.length ps) then ret (combine ys ps)
  else if Nat.eqb (List.length ys) 1 then ret (map (fun p => (hd [] ys, p)) ps)
  else if Nat.eqb (List.length ps) 1 then ret (map (fun y => (y, hd [] ps)) ys)
  else raise (InvalidArgumentError "incompatible shapes").

(** The two [tf.split] calls go through when their sizes fit the rows,
    and [tfd.Mixture] wants at least one component.  Which call it is
    that refuses, and with which class of exception, is not told apart
    here. *)
Definition mixture_builds (output_dim num_mixes : Z) : bool :=
  tf_split_fits (2 * num_mixes * output_dim + num_mixes)
                [num_mixes * output_dim; num_mixes * output_dim; num_mixes]%Z
  && tf_split_fits (num_mixes * output_dim) (repeat output_dim (Z.to_nat num_mixes))
  && (0 <? num_mixes)%Z.

(** ** [get_mixture_loss_func]: the [loss_func] it returns *)

Definition loss_func (output_dim num_mixes : Z) (y_true y_pred : list R) : py R :=
  (let n := (2 * num_mixes * output_dim + num_mixes)%Z in
   y_pred <- tf_reshape_rows y_pred n ;;
   y_true <- tf_reshape_rows y_true output_dim ;;
   if mixture_builds output_dim num_mixes
   then
     rows <- broadcast_rows y_true y_pred ;;
     let loss := map (fun '(y, p) => row_log_prob output_dim num_mixes y p) rows in
     ret (loss_reduction loss)
   else raise (InvalidArgumentError "the split or the mixture is refused"))%py.

(** ** [get_mixture_sampling_fun]: the [sampling_func] it returns

    The value is the mixture each row of [mixture.sample()] is drawn
    from. *)

Definition sampling_func (output_dim num_mixes : Z) (y_pred : list R)
  : py (list (list R * list (@mvn R))) :=
  (let n := (2 * num_mixes * output_dim + num_mixes)%Z in
   y_pred <- tf_reshape_rows y_pred n ;;
   if mixture_builds output_dim num_mixes
   then ret (map (sampling_func_mixture output_dim num_mixes) y_pred)
   else raise (InvalidArgumentError "the split or the mixture is refused"))%py.

(** ** [get_mixture_mse_accuracy]: the [mse_func] it returns

    [samp] is the value of [mixture.sample()]: one row of [output_dim]
    entries for every row of predictions. *)

Fixpoint zip_sub (a b : list R) : list R :=
  match a, b with
  | x :: a', y :: b' => (x - y) :: zip_sub a' b'
  | _, _ => []
  end.

(** [tf.reduce_mean(tf.square(s - y), axis=-1)] on one row. *)
Definition row_mse (sy : list R * list R) : R :=
  let '(s, y) := sy in reduce_mean (map (fun d => d * d) (zip_sub s y)).

Definition mse_func (output_dim num_mixes : Z) (y_true y_pred : list R)
  (samp : list (list R)) : py (list R) :=
  (let n := (2 * num_mixes * output_dim + num_mixes)%Z in
   y_pred <- tf_reshape_rows y_pred n ;;
   y_true <- tf_reshape_rows y_true output_dim ;;
   if mixture_builds output_dim num_mixes
   then
     rows <- broadcast_rows samp y_true ;;
     let mse := map row_mse rows in
     ret mse
   else raise (InvalidArgumentError "the split or the mixture is refused"))%py.

(** ** [create_mdn_layers]

    What the three [Dense] layers and the concatenation compute on one
    input vector.  The weights of a layer are created by Keras with as
    many units as the layer was asked for; [kernel w j] and [bias w j]
    are the weights of unit [j]. *)





(** ** Notions the statements use *)

(** Shannon entropy of a distribution. *)
Definition entropy (p : list R) : R := - reduce_sum (map (fun x => x * ln x) p).

(** Not all entries are equal. *)
Definition non_uniform (w : list R) : Prop :=
  exists x y, In x w /\ In y w /\ x <> y.

Definition probability_distribution (dist : list R) : Prop :=
  Forall (fun p => 0 <= p) dist /\ reduce_sum dist = 1.

(** [dist[0] + ... + dist[i]]. *)
Definition cumulative (dist : list R) (i : nat) : R := reduce_sum (firstn (S i) dist).

(** [i] is the smallest index whose cumulative sum reaches [r]. *)
Definition first_reaching (dist : list R) (r : R) (i : nat) : Prop :=
  (i < List.length dist)%nat /\ cumulative dist i >= r /\
  forall j, (j < i)%nat -> cumulative dist j < r.

(** [m] is the largest entry of [l]. *)
Definition is_max (m : R) (l : list R) : Prop :=
  In m l /\ forall x, In x l -> x <= m.

(** *** The mixture likelihood, as the specification words it

    These definitions are written from the specification, not from the
    code: a row [p] of [2*K*D+K] predictions holds [K*D] means, then
    [K*D] standard deviations, then [K] logits; the mixture weights are
    the softmax of the logits, a component is a product of [D]
    one-dimensional normal densities, and the likelihood of a target row
    [y] is the weighted sum of the components' densities at [y]. *)

Definition sum_over (n : nat) (f : nat -> R) : R :=
  fold_right Rplus 0 (map f (seq 0 n)).

Definition product_over (n : nat) (f : nat -> R) : R :=
  fold_right Rmult 1 (map f (seq 0 n)).

Definition gaussian_density (mu sigma x : R) : R :=
  exp (- ((x - mu) / sigma) ^ 2 / 2) / (sigma * R_sqrt.sqrt (2 * PI)).

Definition row_mu (D K : Z) (p : list R) (k d : nat) : R :=
  nth (k * Z.to_nat D + d) p 0.

Definition row_sigma (D K : Z) (p : list R) (k d : nat) : R :=
  nth (Z.to_nat (K * D) + (k * Z.to_nat D + d)) p 0.

Definition row_logit (D K : Z) (p : list R) (k : nat) : R :=
  nth (Z.to_nat (2 * K * D) + k) p 0.

Definition mixture_weight (D K : Z) (p : list R) (k : nat) : R :=
  exp (row_logit D K p k)
  / sum_over (Z.to_nat K) (fun j => exp (row_logit D K p j)).

Definition mixture_density (D K : Z) (p y : list R) : R :=
  sum_over (Z.to_nat K)
    (fun k => mixture_weight D K p k
              * product_over (Z.to_nat D)
                  (fun d => gaussian_density (row_mu D K p k d)
                                             (row_sigma D K p k d) (nth d y 0))).

(** Every standard deviation of the row is positive. *)
Definition sigmas_positive (D K : Z) (p : list R) : Prop :=
  forall k d, (k < Z.to_nat K)%nat -> (d < Z.to_nat D)%nat ->
              0 < row_sigma D K p k d.

End Keras.

(** * Properties *)

Lemma bind_ret_l {A B} (a : A) (f : A -> py B) : bind (ret a) f = f a.
Proof. unfold bind, ret. destruct (f a). reflexivity. Qed.

(** ** Slices *)

Lemma len_nonneg {A} (l : list A) : (0 <= len l)%Z.
Proof. unfold len; lia. Qed.

Lemma py_slice_within {A} (l : list A) (a b : Z) :
  (0 <= a <= len l)%Z -> (0 <= b <= len l)%Z ->
  py_slice l (Some a) (Some b) = firstn (Z.to_nat (b - a)) (skipn (Z.to_nat a) l).
Proof.
  intros Ha Hb. unfold py_slice, slice_index.
  destruct (Z.ltb_spec a 0); [lia|]. destruct (Z.ltb_spec b 0); [lia|].
  rewrite !Z.min_l by lia. reflexivity.
Qed.

Lemma py_slice_prefix {A} (l : list A) (b : Z) :
  (0 <= b <= len l)%Z -> py_slice l None (Some b) = firstn (Z.to_nat b) l.
Proof.
  intros Hb. unfold py_slice, slice_index.
  destruct (Z.ltb_spec b 0); [lia|].
  rewrite Z.min_l by lia. rewrite Z.sub_0_r. reflexivity.
Qed.

Lemma py_slice_suffix {A} (l : list A) (k : Z) :
  (1 <= k <= len l)%Z ->
  py_slice l (Some (- k)%Z) None = skipn (Z.to_nat (len l - k)) l.
Proof.
  intros Hk. unfold py_slice, slice_index.
  destruct (Z.ltb_spec (- k) 0); [|lia].
  rewrite Z.max_l by lia.
  replace (- k + len l)%Z with (len l - k)%Z by lia.
  apply firstn_all2. rewrite length_skipn. unfold len in *. lia.
Qed.

(** A slice that ends at index 0 is empty, wherever it starts. *)
Lemma py_slice_stop_0 {A} (l : list A) (lo : option Z) :
  py_slice l lo (Some 0%Z) = [].
Proof.
  unfold py_slice. pose proof (len_nonneg l) as Hn.
  assert (Hstop : slice_index (len l) 0 = 0%Z).
  { unfold slice_index. simpl. lia. }
  rewrite Hstop.
  assert (Hstart : (0 <= match lo with Some i => slice_index (len l) i | None => 0 end)%Z).
  { destruct lo as [i|]; [|lia]. unfold slice_index.
    destruct (Z.ltb_spec i 0); lia. }
  replace (Z.to_nat (0 - _)) with 0%nat by lia. reflexivity.
Qed.

(** Every slice is a contiguous piece of the list. *)
Lemma py_slice_infix {A} (l : list A) (lo hi : option Z) :
  exists pre post, l = pre ++ py_slice l lo hi ++ post.
Proof.
  unfold py_slice.
  set (count := Z.to_nat _). set (start := Z.to_nat _).
  exists (firstn start l), (skipn count (skipn start l)).
  rewrite firstn_skipn. rewrite firstn_skipn. reflexivity.
Qed.

(** ** [split_mixture_params] *)

(** On a vector of the expected length the three slices are taken
    within bounds. *)
Lemma split_mixture_params_slices {A} (params : list A) (D K : Z) :
  (1 <= D)%Z -> (1 <= K)%Z -> len params = (2 * K * D + K)%Z ->
  split_mixture_params params D K
  = ret (firstn (Z.to_nat (K * D)) params,
         firstn (Z.to_nat (K * D)) (skipn (Z.to_nat (K * D)) params),
         skipn (Z.to_nat (len params - K)) params).
Proof.
  intros HD HK Hlen.
  assert (HKD : (1 <= K * D)%Z) by nia.
  unfold split_mixture_params.
  rewrite py_slice_prefix by lia.
  rewrite py_slice_within by lia.
  rewrite py_slice_suffix by lia.
  replace (2 * K * D - K * D)%Z with (K * D)%Z by lia.
  reflexivity.
Qed.

Lemma split_mixture_params_lengths {A} (params : list A) (D K : Z) :
  (1 <= D)%Z -> (1 <= K)%Z -> len params = (2 * K * D + K)%Z ->
  len (firstn (Z.to_nat (K * D)) params) = (K * D)%Z /\
  len (firstn (Z.to_nat (K * D)) (skipn (Z.to_nat (K * D)) params)) = (K * D)%Z /\
  len (skipn (Z.to_nat (len params - K)) params) = K.
Proof.
  intros HD HK Hlen.
  assert (HKD : (1 <= K * D)%Z) by nia.
  unfold len in *. rewrite !length_firstn, !length_skipn. lia.
Qed.

(** C2. For [D >= 1], [K >= 1] and a parameter vector of length
    [2*K*D+K], [split_mixture_params] returns the first [K*D] entries as
    [mus], the next [K*D] entries as [sigs] and the final [K] entries as
    [pi_logits], and [mus ++ sigs ++ pi_logits] is the vector itself. *)
Theorem split_mixture_params_partition (A : Type) (params : list A) (D K : Z) :
  (1 <= D)%Z -> (1 <= K)%Z -> len params = (2 * K * D + K)%Z ->
  exists mus sigs pi_logits,
    split_mixture_params params D K = ret (mus, sigs, pi_logits) /\
    mus = firstn (Z.to_nat (K * D)) params /\
    sigs = firstn (Z.to_nat (K * D)) (skipn (Z.to_nat (K * D)) params) /\
    pi_logits = skipn (Z.to_nat (len params - K)) params /\
    len mus = (K * D)%Z /\ len sigs = (K * D)%Z /\ len pi_logits = K /\
    mus ++ sigs ++ pi_logits = params.
Proof.
  intros HD HK Hlen.
  assert (HKD : (1 <= K * D)%Z) by nia.
  destruct (split_mixture_params_lengths params HD HK Hlen) as (Hmu & Hsig & Hpi).
  do 3 eexists. split; [apply split_mixture_params_slices; assumption|].
  repeat split; try assumption.
  replace (Z.to_nat (len params - K))
    with (Z.to_nat (K * D) + Z.to_nat (K * D))%nat by lia.
  rewrite <- skipn_skipn. rewrite firstn_skipn. apply firstn_skipn.
Qed.

Lemma split_mixture_params_partition_witness :
  exists mus sigs pi_logits,
    split_mixture_params [10; 11; 12; 13; 20; 21; 22; 23; 30; 31]%Z 2 2
      = ret (mus, sigs, pi_logits) /\
    mus ++ sigs ++ pi_logits = [10; 11; 12; 13; 20; 21; 22; 23; 30; 31]%Z.
Proof.
  destruct (@split_mixture_params_partition Z
              [10; 11; 12; 13; 20; 21; 22; 23; 30; 31]%Z 2 2)
    as (mus & sigs & pis & Heq & _ & _ & _ & _ & _ & _ & Happ);
    [lia | lia | reflexivity |].
  exists mus, sigs, pis. split; assumption.
Defined.

Lemma slice_index_bounds (n i : Z) :
  (0 <= n)%Z -> (0 <= slice_index n i <= n)%Z.
Proof. intros Hn. unfold slice_index. destruct (Z.ltb_spec i 0); lia. Qed.

(** The three slices on a vector of any length. *)
Lemma py_slice_prefix_any {A} (l : list A) (b : Z) :
  (0 <= b)%Z -> py_slice l None (Some b) = firstn (Z.to_nat b) l.
Proof.
  intros Hb. unfold py_slice, slice_index.
  destruct (Z.ltb_spec b 0); [lia|]. rewrite Z.sub_0_r. simpl skipn.
  destruct (Z.le_gt_cases b (len l)) as [Hle|Hgt].
  - rewrite Z.min_l by lia. reflexivity.
  - rewrite Z.min_r by lia. unfold len in *.
    rewrite Nat2Z.id, firstn_all, firstn_all2 by lia. reflexivity.
Qed.

Lemma py_slice_block_any {A} (l : list A) (a c : Z) :
  (0 <= a)%Z -> (0 <= c)%Z ->
  py_slice l (Some a) (Some (a + c)%Z) = firstn (Z.to_nat c) (skipn (Z.to_nat a) l).
Proof.
  intros Ha Hc. unfold py_slice, slice_index.
  destruct (Z.ltb_spec a 0); [lia|]. destruct (Z.ltb_spec (a + c) 0); [lia|].
  destruct (Z.le_gt_cases (len l) a) as [Hout|Hin].
  - assert (Hnil : forall n, (List.length l <= n)%nat -> skipn n l = []).
    { intros n Hn. apply skipn_all2, Hn. }
    rewrite (Hnil (Z.to_nat a)) by (unfold len in *; lia).
    rewrite (Hnil (Z.to_nat (Z.min a (len l)))) by (unfold len in *; lia).
    rewrite !firstn_nil. reflexivity.
  - rewrite (Z.min_l a) by lia.
    destruct (Z.le_gt_cases (a + c) (len l)) as [Hfit|Hcut].
    + rewrite Z.min_l by lia. f_equal. lia.
    + rewrite Z.min_r by lia.
      rewrite !firstn_all2; [reflexivity| |];
        rewrite length_skipn; unfold len in *; lia.
Qed.

Lemma py_slice_suffix_any {A} (l : list A) (k : Z) :
  (1 <= k)%Z -> py_slice l (Some (- k)%Z) None = skipn (Z.to_nat (len l - k)) l.
Proof.
  intros Hk. unfold py_slice, slice_index.
  destruct (Z.ltb_spec (- k) 0); [|lia].
  replace (Z.to_nat (Z.max (- k + len l) 0)) with (Z.to_nat (len l - k)) by lia.
  apply firstn_all2. rewrite length_skipn. unfold len in *. lia.
Qed.

(** C6 (as stated, refuted). A vector of length 2 is split for [D = 1],
    [K = 1], where 3 entries are expected: the call returns three slices
    and signals nothing. *)
Lemma split_mixture_params_accepts_wrong_length :
  len [1; 2]%Z <> (2 * 1 * 1 + 1)%Z /\
  split_mixture_params [1; 2]%Z 1 1 = ret ([1], [2], [2])%Z /\
  ~ raises (split_mixture_params [1; 2]%Z 1 1).
Proof.
  split; [discriminate|]. split; [reflexivity|].
  intros [e He]. discriminate He.
Qed.

(** C6 (amended). [split_mixture_params] has no side effect and makes no
    check of the length: for a vector of any length and every
    [output_dim] and [num_mixes] it logs nothing, raises nothing and
    returns the three slices [params[:K*D]], [params[K*D:2*K*D]] and
    [params[-K:]].  For [output_dim >= 0] and [num_mixes >= 1] these are
    the first [K*D] entries (all of them when there are fewer), the up to
    [K*D] entries that follow them, and the last [K] entries (all of them
    when there are fewer). *)
Theorem split_mixture_params_pure_total (A : Type) (params : list A) (D K : Z) :
  logged (split_mixture_params params D K) = [] /\
  result (split_mixture_params params D K)
  = Returns (py_slice params None (Some (K * D)%Z),
             py_slice params (Some (K * D)%Z) (Some (2 * K * D)%Z),
             py_slice params (Some (- K)%Z) None) /\
  ((0 <= D)%Z -> (1 <= K)%Z ->
   split_mixture_params params D K
   = ret (firstn (Z.to_nat (K * D)) params,
          firstn (Z.to_nat (K * D)) (skipn (Z.to_nat (K * D)) params),
          skipn (Z.to_nat (len params - K)) params)).
Proof.
  split; [reflexivity|]. split; [reflexivity|].
  intros HD HK. assert (HKD : (0 <= K * D)%Z) by nia.
  unfold split_mixture_params.
  rewrite py_slice_prefix_any by exact HKD.
  replace (2 * K * D)%Z with (K * D + K * D)%Z by lia.
  rewrite py_slice_block_any by exact HKD.
  rewrite py_slice_suffix_any by exact HK.
  reflexivity.
Qed.

(** A vector one entry short of the layout, and one of the right length. *)
Lemma split_mixture_params_pure_total_witness :
  split_mixture_params [10; 11; 20; 21]%Z 2 1 = ret ([10; 11], [20; 21], [21])%Z /\
  split_mixture_params [10; 11; 20; 21; 30]%Z 2 1 = ret ([10; 11], [20; 21], [30])%Z.
Proof.
  split.
  - apply (@split_mixture_params_pure_total Z [10; 11; 20; 21]%Z 2 1); lia.
  - apply (@split_mixture_params_pure_total Z [10; 11; 20; 21; 30]%Z 2 1); lia.
Defined.

(** ** [sample_from_categorical] *)

Section CategoricalLoop.

Context {A : Type} `{Arith A}.

(** What the loop returns, for any arithmetic: the first index at which
    the comparison succeeds, or nothing when it fails at every index. *)
Lemma categorical_loop_spec (dist : list A) (r : A) :
  forall (i0 : Z) (acc : A),
    match categorical_loop dist r i0 acc with
    | Some i =>
        exists k, i = (i0 + Z.of_nat k)%Z /\ (k < List.length dist)%nat /\
                  n_geb (accumulated acc dist k) r = true /\
                  forall j, (j < k)%nat -> n_geb (accumulated acc dist j) r = false
    | None =>
        forall j, (j < List.length dist)%nat ->
                  n_geb (accumulated acc dist j) r = false
    end.
Proof.
  induction dist as [|d rest IH]; intros i0 acc; simpl.
  - intros j Hj. inversion Hj.
  - destruct (n_geb (n_add acc d) r) eqn:Hge.
    + exists 0%nat. split; [lia|]. split; [simpl; lia|]. split; [exact Hge|].
      intros j Hj. inversion Hj.
    + specialize (IH (i0 + 1)%Z (n_add acc d)).
      destruct (categorical_loop rest r (i0 + 1) (n_add acc d)) as [i|].
      * destruct IH as (k & Hi & Hk & Hhit & Hmiss).
        exists (S k). split; [lia|]. split; [simpl; lia|]. split; [exact Hhit|].
        intros [|j] Hj; [exact Hge|]. apply Hmiss. lia.
      * intros [|j] Hj; [exact Hge|]. apply IH. simpl in Hj. lia.
Qed.

Lemma sample_from_categorical_none (dist : list A) (r : A) :
  (forall j, (j < List.length dist)%nat ->
             n_geb (accumulated n_zero dist j) r = false) ->
  categorical_loop dist r 0%Z n_zero = None.
Proof.
  intros Hmiss. pose proof (categorical_loop_spec dist r 0%Z n_zero) as Hs.
  destruct (categorical_loop dist r 0 n_zero) as [i|]; [|reflexivity].
  destruct Hs as (k & _ & Hk & Hhit & _).
  rewrite (Hmiss k Hk) in Hhit. discriminate.
Qed.

Lemma sample_from_categorical_first (dist : list A) (r : A) (k : nat) :
  (k < List.length dist)%nat ->
  n_geb (accumulated n_zero dist k) r = true ->
  (forall j, (j < k)%nat -> n_geb (accumulated n_zero dist j) r = false) ->
  categorical_loop dist r 0%Z n_zero = Some (Z.of_nat k).
Proof.
  intros Hk Hhit Hmiss.
  pose proof (categorical_loop_spec dist r 0%Z n_zero) as Hs.
  destruct (categorical_loop dist r 0 n_zero) as [i|].
  - destruct Hs as (k' & Hi & Hk' & Hhit' & Hmiss').
    destruct (Nat.lt_trichotomy k k') as [Hlt|[Heq|Hgt]].
    + rewrite (Hmiss' k Hlt) in Hhit. discriminate.
    + subst. reflexivity.
    + rewrite (Hmiss k' Hgt) in Hhit'. discriminate.
  - rewrite (Hs k Hk) in Hhit. discriminate.
Qed.

(** An index that is returned is one below [len dist] at which the
    running sum reaches [r], and the first such. *)
Lemma sample_from_categorical_selected (dist : list A) (r : A) (i : nat) :
  sample_from_categorical dist r = ret (Z.of_nat i) ->
  (i < List.length dist)%nat /\
  n_geb (accumulated n_zero dist i) r = true /\
  forall j, (j < i)%nat -> n_geb (accumulated n_zero dist j) r = false.
Proof.
  intros Hret. unfold sample_from_categorical in Hret.
  pose proof (categorical_loop_spec dist r 0%Z n_zero) as Hs.
  destruct (categorical_loop dist r 0 n_zero) as [i'|].
  - destruct Hs as (k & Hi & Hk & Hhit & Hmiss).
    injection Hret as Hret. assert (i = k) as -> by lia.
    split; [exact Hk|]. split; [exact Hhit|exact Hmiss].
  - discriminate Hret.
Qed.

(** C5. When the cumulative sum reaches the draw [r] at no index of
    [dist], [sample_from_categorical] raises nothing: it logs the failure
    and returns the sentinel [-1].  This holds in any arithmetic, binary64
    included. *)
Theorem sample_from_categorical_failure (dist : list A) (r : A) :
  (forall i, (i < List.length dist)%nat ->
             n_geb (accumulated n_zero dist i) r = false) ->
  sample_from_categorical dist r
  = (["Error sampling categorical model."%string], Returns (-1)%Z).
Proof.
  intros Hmiss. unfold sample_from_categorical.
  rewrite (sample_from_categorical_none dist r Hmiss). reflexivity.
Qed.

(** C4 (amended).  In the arithmetic the code runs in,
    [sample_from_categorical] returns the smallest index [i] at which the
    running sum [((0 + dist[0]) + ...) + dist[i]], added up from the left
    in that arithmetic, compares [>= r]: that index is returned, nothing
    else is, and an index is returned as soon as some running sum reaches
    [r]; the result is a function of [dist] and [r].  For the one-entry
    distribution [[1.0]] it returns 0 for every [r] that [0 + 1.0]
    reaches, in binary64 every [r <= 1]. *)
Theorem sample_from_categorical_first_reached (dist : list A) (r : A) :
  (forall i, (i < List.length dist)%nat ->
     n_geb (accumulated n_zero dist i) r = true ->
     (forall j, (j < i)%nat -> n_geb (accumulated n_zero dist j) r = false) ->
     sample_from_categorical dist r = ret (Z.of_nat i)) /\
  (forall i, sample_from_categorical dist r = ret (Z.of_nat i) ->
     (i < List.length dist)%nat /\
     n_geb (accumulated n_zero dist i) r = true /\
     forall j, (j < i)%nat -> n_geb (accumulated n_zero dist j) r = false) /\
  ((exists i, (i < List.length dist)%nat /\
              n_geb (accumulated n_zero dist i) r = true) ->
   exists i, (i < List.length dist)%nat /\
             sample_from_categorical dist r = ret (Z.of_nat i)) /\
  (n_geb (n_add n_zero n_one) r = true ->
   sample_from_categorical [n_one] r = ret 0%Z).
Proof.
  split; [|split; [|split]].
  - intros i Hi Hhit Hmiss. unfold sample_from_categorical.
    rewrite (sample_from_categorical_first dist r Hi Hhit Hmiss). reflexivity.
  - intros i. apply sample_from_categorical_selected.
  - intros (i & Hi & Hhit). unfold sample_from_categorical.
    pose proof (categorical_loop_spec dist r 0%Z n_zero) as Hs.
    destruct (categorical_loop dist r 0 n_zero) as [i'|].
    + destruct Hs as (k & -> & Hk & _). exists k. split; [exact Hk|reflexivity].
    + rewrite (Hs i Hi) in Hhit. discriminate Hhit.
  - intros Hone. unfold sample_from_categorical. simpl.
    rewrite Hone. reflexivity.
Qed.

End CategoricalLoop.

(** In binary64: of the weights [1/4, 1/4, 1/2] the draw [1/2] selects
    index 1, and [[1.0]] gives index 0 to a draw just below 1. *)
Lemma sample_from_categorical_first_reached_witness :
  sample_from_categorical [0.25; 0.25; 0.5]%float 0.5%float = ret 1%Z /\
  sample_from_categorical [1%float] 0x1.fffffffffffffp-1%float = ret 0%Z.
Proof.
  destruct (@sample_from_categorical_first_reached float binary64_arith
              [0.25; 0.25; 0.5]%float 0.5%float) as (Hfirst & _).
  destruct (@sample_from_categorical_first_reached float binary64_arith
              [1%float] 0x1.fffffffffffffp-1%float) as (_ & _ & _ & Hone).
  split.
  - apply (Hfirst 1%nat).
    + simpl. lia.
    + vm_compute. reflexivity.
    + intros j Hj. assert (j = 0%nat) as -> by lia. vm_compute. reflexivity.
  - apply Hone. vm_compute. reflexivity.
Defined.

(** In binary64 the one-entry distribution [[1.0]] gives index 0 to
    every draw [r <= 1]. *)
Lemma binary64_single_weight (r : float) :
  PrimFloat.leb r 1 = true -> sample_from_categorical [1%float] r = ret 0%Z.
Proof.
  intros Hr. unfold sample_from_categorical. cbn [categorical_loop].
  change (n_geb (n_add n_zero 1%float) r) with (PrimFloat.leb r (0 + 1)%float).
  replace (0 + 1)%float with 1%float by (vm_compute; reflexivity).
  rewrite Hr. reflexivity.
Qed.

(** C4 (as stated, refuted).  In binary64 the nine weights
    [1 - 2^-52, 2^-55, ..., 2^-55] are non-negative and their exact sum
    is 1, and the draw [1 - 2^-53] lies in [[0,1)]; every running sum
    rounds back to [1 - 2^-52], which is below the draw, so no index is
    returned: the call logs the failure and returns [-1]. *)
Lemma sample_from_categorical_misses_a_distribution :
  let dist := (0x1.ffffffffffffep-1 :: repeat 0x1p-55 8)%float in
  let r := 0x1.fffffffffffffp-1%float in
  forallb (fun p => PrimFloat.leb 0 p) dist = true /\
  (fold_right Qplus 0 (map binary64_to_Q dist) == 1)%Q /\
  PrimFloat.leb 0 r = true /\ PrimFloat.ltb r 1 = true /\
  sample_from_categorical dist r
  = (["Error sampling categorical model."%string], Returns (-1)%Z).
Proof.
  cbv zeta. split; [vm_compute; reflexivity|].
  split; [vm_compute; reflexivity|].
  split; [vm_compute; reflexivity|].
  split; vm_compute; reflexivity.
Qed.

(** In binary64 the failure occurs on a distribution and a draw that the
    caller can meet: seven equal weights [1/7], whose running sum ends at
    [1 - 2^-52], and the draw [1 - 2^-53 < 1]. *)
Lemma sample_from_categorical_failure_witness :
  sample_from_categorical (repeat (1 / 7)%float 7) 0x1.fffffffffffffp-1%float
  = (["Error sampling categorical model."%string], Returns (-1)%Z).
Proof.
  apply (@sample_from_categorical_failure float binary64_arith).
  intros i Hi. simpl in Hi.
  do 7 (destruct i as [|i]; [vm_compute; reflexivity|]).
  lia.
Defined.

Section CategoricalReal.

Local Open Scope R_scope.

Lemma R_geb_true (x y : R) : n_geb x y = true <-> x >= y.
Proof.
  simpl. destruct (Rle_dec y x); split; intros;
    first [reflexivity | discriminate | lra].
Qed.

Lemma R_geb_false (x y : R) : n_geb x y = false <-> x < y.
Proof.
  simpl. destruct (Rle_dec y x); split; intros;
    first [reflexivity | discriminate | lra].
Qed.

Lemma fold_left_Rplus (l : list R) (a : R) :
  fold_left Rplus l a = a + reduce_sum l.
Proof.
  revert a. induction l as [|x l IH]; intros a; simpl.
  - lra.
  - rewrite IH. lra.
Qed.

Lemma accumulated_cumulative (dist : list R) (i : nat) :
  accumulated n_zero dist i = cumulative dist i.
Proof.
  unfold accumulated, cumulative. change (@n_add R R_arith) with Rplus.
  rewrite fold_left_Rplus. simpl. lra.
Qed.

Lemma cumulative_last (dist : list R) :
  dist <> [] -> cumulative dist (List.length dist - 1) = reduce_sum dist.
Proof.
  intros Hne. unfold cumulative. rewrite firstn_all2; [reflexivity|].
  destruct dist; [contradiction|simpl; lia].
Qed.

(** Whichever index is the first to reach [r] is the one returned. *)
Lemma sample_from_categorical_determined (dist : list R) (r : R) (i : nat) :
  first_reaching dist r i ->
  sample_from_categorical dist r = ret (Z.of_nat i).
Proof.
  intros (Hi & Hhit & Hmiss). unfold sample_from_categorical.
  rewrite (sample_from_categorical_first dist r (k := i)); [reflexivity|exact Hi| |].
  - apply R_geb_true. rewrite accumulated_cumulative. exact Hhit.
  - intros j Hj. apply R_geb_false. rewrite accumulated_cumulative.
    apply Hmiss, Hj.
Qed.

(** A total weight that reaches [r] is reached first at some index. *)
Lemma first_reaching_exists (dist : list R) (r : R) :
  dist <> [] -> r <= reduce_sum dist -> exists i, first_reaching dist r i.
Proof.
  intros Hne Hsum.
  pose proof (categorical_loop_spec dist r 0%Z n_zero) as Hs.
  destruct (categorical_loop dist r 0 n_zero) as [i|].
  - destruct Hs as (k & _ & Hk & Hhit & Hmiss). exists k.
    split; [exact Hk|]. split.
    + rewrite <- accumulated_cumulative. apply R_geb_true, Hhit.
    + intros j Hj. rewrite <- accumulated_cumulative.
      apply R_geb_false, Hmiss, Hj.
  - assert (Hlast : (List.length dist - 1 < List.length dist)%nat).
    { destruct dist; [contradiction|simpl; lia]. }
    specialize (Hs _ Hlast). apply R_geb_false in Hs.
    rewrite accumulated_cumulative, (cumulative_last Hne) in Hs. lra.
Qed.

End CategoricalReal.

(** ** [elu_plus_one_plus_epsilon] *)

Section Activation.

Local Open Scope R_scope.

(** [elu] at the real instance. *)
Lemma elu_real (x : R) : elu x = if Rle_dec 0 x then x else exp x - 1.
Proof. unfold elu. simpl. destruct (Rle_dec 0 x); reflexivity. Qed.

Lemma elu_ge_minus_one (x : R) : -1 <= elu x.
Proof.
  rewrite elu_real. destruct (Rle_dec 0 x) as [Hpos|Hneg].
  - lra.
  - pose proof (exp_pos x). lra.
Qed.


(** C7 (amended).  With a positive fuzz factor [epsilon], for every [x],
    however negative, [elu_plus_one_plus_epsilon x = ELU(x) + 1 + epsilon]
    where [ELU(x)] is [x] for [x >= 0] and [exp x - 1] for [x < 0], so
    [ELU(x) >= -1] and the result is at least [epsilon] and strictly
    positive.  (The bounds [>= -1] and [>= epsilon] are weak: they are
    what rounding leaves of [ELU(x) > -1].) *)
Theorem elu_plus_one_plus_epsilon_lower_bound (epsilon x : R) :
  0 < epsilon ->
  elu_plus_one_plus_epsilon epsilon x = elu x + 1 + epsilon /\
  (0 <= x -> elu x = x) /\
  (x < 0 -> elu x = exp x - 1) /\
  -1 <= elu x /\
  epsilon <= elu_plus_one_plus_epsilon epsilon x /\
  0 < elu_plus_one_plus_epsilon epsilon x.
Proof.
  intros Heps. pose proof (elu_ge_minus_one x) as Helu.
  split; [reflexivity|].
  split; [intros Hx; rewrite elu_real; destruct (Rle_dec 0 x); [reflexivity|lra]|].
  split; [intros Hx; rewrite elu_real; destruct (Rle_dec 0 x); [lra|reflexivity]|].
  unfold elu_plus_one_plus_epsilon. simpl. repeat split; lra.
Qed.

Lemma elu_plus_one_plus_epsilon_lower_bound_witness :
  / 10000000 <= elu_plus_one_plus_epsilon (/ 10000000) (-1000) /\
  0 < elu_plus_one_plus_epsilon (/ 10000000) (-1000).
Proof.
  destruct (@elu_plus_one_plus_epsilon_lower_bound (/ 10000000) (-1000))
    as (_ & _ & _ & _ & Hge & Hpos); [lra|].
  split; assumption.
Defined.

End Activation.

(** C7 (as stated, refuted).  In binary64, at [x = -1000] the exponential
    underflows to 0, [ELU(x)] is exactly [-1], not above it, and the
    activation returns exactly [epsilon = 1e-7], not more. *)
Lemma elu_plus_one_plus_epsilon_reaches_epsilon :
  elu (-1000)%float = (-1)%float /\
  elu_plus_one_plus_epsilon 0x1.ad7f29abcaf48p-24%float (-1000)%float = 0x1.ad7f29abcaf48p-24%float /\
  PrimFloat.ltb 0x1.ad7f29abcaf48p-24%float (elu_plus_one_plus_epsilon 0x1.ad7f29abcaf48p-24%float (-1000)%float) = false.
Proof. repeat split; vm_compute; reflexivity. Qed.

(** ** [np.sum]: every entry is added once *)

Section PairwiseSum.

Context {A : Type} `{Arith A}.

Lemma sum_of_fold_left (l : list A) :
  forall (M : list A) (acc : A),
    sum_of M acc -> sum_of (M ++ l) (fold_left n_add l acc).
Proof.
  induction l as [|x l IH]; intros M acc Hacc.
  - rewrite app_nil_r. exact Hacc.
  - cbn [fold_left].
    replace (M ++ x :: l) with ((M ++ [x]) ++ l) by (rewrite <- app_assoc; reflexivity).
    apply IH. apply sum_of_add; [exact Hacc|apply sum_of_entry].
Qed.

Lemma zip_add_sums (Ms : list (list A)) (r : list A) :
  Forall2 sum_of Ms r ->
  forall blk, Forall2 sum_of (zip_snoc Ms blk) (zip_add r blk).
Proof.
  induction 1 as [|M x Ms r HM _ IH]; intros blk.
  - destruct blk; constructor.
  - destruct blk as [|y blk]; cbn [zip_snoc zip_add].
    + constructor; [exact HM|]. specialize (IH []).
      destruct Ms, r; exact IH.
    + constructor; [|apply IH].
      apply sum_of_add; [exact HM|apply sum_of_entry].
Qed.

Lemma concat_zip_snoc (Ms : list (list A)) :
  forall blk, (List.length blk <= List.length Ms)%nat ->
    Permutation (List.concat (zip_snoc Ms blk)) (List.concat Ms ++ blk).
Proof.
  induction Ms as [|M Ms IH]; intros blk Hlen.
  - destruct blk; [reflexivity|simpl in Hlen; lia].
  - destruct blk as [|y blk]; cbn [zip_snoc List.concat].
    + rewrite app_nil_r. reflexivity.
    + rewrite <- !app_assoc. apply Permutation_app_head.
      cbn [app]. rewrite (IH blk) by (simpl in Hlen; lia).
      apply Permutation_middle.
Qed.

Lemma length_zip_add_any (r blk : list A) :
  List.length (zip_add r blk) = List.length r.
Proof.
  revert blk. induction r as [|x r IH]; intros [|y blk]; simpl;
    try reflexivity. rewrite IH. reflexivity.
Qed.

Lemma length_zip_snoc (Ms : list (list A)) (blk : list A) :
  List.length (zip_snoc Ms blk) = List.length Ms.
Proof.
  revert blk. induction Ms as [|M Ms IH]; intros [|y blk]; simpl;
    try reflexivity. rewrite IH. reflexivity.
Qed.

Lemma unrolled_blocks_sums (fuel : nat) :
  forall (Ms : list (list A)) (r rest : list A),
    Forall2 sum_of Ms r -> List.length Ms = 8%nat ->
    exists Ms',
      Forall2 sum_of Ms' (fst (unrolled_blocks fuel r rest)) /\
      Permutation (List.concat Ms' ++ snd (unrolled_blocks fuel r rest))
                  (List.concat Ms ++ rest).
Proof.
  induction fuel as [|fuel IH]; intros Ms r rest HMs Hlen; cbn [unrolled_blocks].
  - exists Ms. split; [exact HMs|reflexivity].
  - destruct (Nat.leb 8 (List.length rest)).
    + destruct (IH (zip_snoc Ms (firstn 8 rest)) (zip_add r (firstn 8 rest)) (skipn 8 rest))
        as (Ms' & HMs' & Hperm).
      * apply zip_add_sums, HMs.
      * rewrite length_zip_snoc. exact Hlen.
      * exists Ms'. split; [exact HMs'|].
        rewrite Hperm.
        rewrite concat_zip_snoc by (rewrite length_firstn; lia).
        rewrite <- app_assoc, firstn_skipn. reflexivity.
    + exists Ms. split; [exact HMs|reflexivity].
Qed.

Lemma sum_of_eight_sums (Ms : list (list A)) (r : list A) :
  Forall2 sum_of Ms r -> sum_of (List.concat Ms) (sum_of_eight r).
Proof.
  intros HMs.
  assert (Hgen : sum_of (List.concat Ms) (fold_left n_add r n_zero)).
  { replace (List.concat Ms) with ([] ++ List.concat Ms) by reflexivity.
    generalize (@nil A) (@n_zero A _) sum_of_nothing.
    induction HMs as [|M x Ms r HM _ IH]; intros M0 acc Hacc.
    - cbn. rewrite app_nil_r. exact Hacc.
    - cbn [List.concat fold_left]. rewrite app_assoc. apply IH.
      apply sum_of_add; assumption. }
  unfold sum_of_eight.
  do 8 (destruct HMs as [|? ? ? ? ? HMs]; [exact Hgen|]).
  destruct HMs; [|exact Hgen].
  cbn [List.concat]. rewrite app_nil_r.
  repeat match goal with H : sum_of _ _ |- _ => revert H end. intros.
  rewrite !app_assoc.
  eapply sum_of_reordered; [|apply sum_of_add; [apply sum_of_add; apply sum_of_add|apply sum_of_add; apply sum_of_add]; eassumption].
  rewrite <- !app_assoc. reflexivity.
Qed.

Lemma pairwise_sum_sums (fuel : nat) :
  forall a : list A, sum_of a (pairwise_sum fuel a).
Proof.
  assert (Hshort : forall a : list A, sum_of a (fold_left n_add a n_zero)).
  { intros a. apply (sum_of_fold_left a sum_of_nothing). }
  assert (Hblocks : forall a : list A,
            (8 <= List.length a)%nat ->
            sum_of a (let '(r, rest) := unrolled_blocks (List.length a) (firstn 8 a) (skipn 8 a) in
                      fold_left n_add rest (sum_of_eight r))).
  { intros a Hlen.
    destruct (@unrolled_blocks_sums (List.length a)
                (map (fun x => [x]) (firstn 8 a)) (firstn 8 a) (skipn 8 a))
      as (Ms & HMs & Hperm).
    - clear. induction (firstn 8 a) as [|x l IH]; constructor;
        [apply sum_of_entry|exact IH].
    - rewrite length_map, length_firstn. lia.
    - destruct (unrolled_blocks (List.length a) (firstn 8 a) (skipn 8 a)) as [r rest].
      cbn [fst snd] in *.
      apply (sum_of_reordered (l := List.concat Ms ++ rest)).
      + rewrite Hperm.
        assert (Hone : forall l : list A, List.concat (map (fun x => [x]) l) = l).
        { clear. induction l as [|x l IH]; [reflexivity|]. cbn. rewrite IH. reflexivity. }
        rewrite Hone, firstn_skipn. reflexivity.
      + apply sum_of_fold_left. apply sum_of_eight_sums, HMs. }
  induction fuel as [|fuel IH]; intros a; cbn [pairwise_sum].
  - destruct (Nat.ltb (List.length a) 8) eqn:Hlt; [apply Hshort|].
    destruct (Nat.leb (List.length a) 128); [|apply Hshort].
    apply Hblocks. apply Nat.ltb_ge, Hlt.
  - destruct (Nat.ltb (List.length a) 8) eqn:Hlt; [apply Hshort|].
    destruct (Nat.leb (List.length a) 128).
    + apply Hblocks. apply Nat.ltb_ge, Hlt.
    + set (n2 := (List.length a / 2 - (List.length a / 2) mod 8)%nat).
      rewrite <- (firstn_skipn n2 a) at 1.
      apply sum_of_add; apply IH.
Qed.

(** [np.sum] adds up every entry once. *)
Lemma np_sum_sums (l : list A) : sum_of l (np_sum l).
Proof.
  unfold np_sum. change l with ([] ++ l) at 1.
  apply sum_of_add; [apply sum_of_nothing|apply pairwise_sum_sums].
Qed.


End PairwiseSum.

(** ** [softmax] *)

Section SoftmaxFormula.

Context {A : Type} `{Arith A} `{Exp A}.


End SoftmaxFormula.



Section Softmax.

Local Open Scope R_scope.

Lemma fold_left_Rmax_ge (l : list R) (a : R) : a <= fold_left Rmax l a.
Proof.
  revert a. induction l as [|x l IH]; intros a; simpl.
  - lra.
  - eapply Rle_trans; [apply (Rmax_l a x)|apply IH].
Qed.

Lemma fold_left_Rmax_is_max (l : list R) (a : R) :
  is_max (fold_left Rmax l a) (a :: l).
Proof.
  revert a. induction l as [|x l IH]; intros a; simpl.
  - split; [left; reflexivity|]. intros y [<-|[]]. lra.
  - destruct (IH (Rmax a x)) as [Hin Hub]. split.
    + destruct Hin as [Heq|Hin].
      * rewrite <- Heq. unfold Rmax. destruct (Rle_dec a x); simpl; auto.
      * right; right; exact Hin.
    + intros y [<-|[<-|Hy]].
      * eapply Rle_trans; [apply (Rmax_l a x)|apply fold_left_Rmax_ge].
      * eapply Rle_trans; [apply (Rmax_r a x)|apply fold_left_Rmax_ge].
      * apply Hub. right; exact Hy.
Qed.

Lemma reduce_sum_div (l : list R) (s : R) :
  reduce_sum (map (fun x => x / s) l) = reduce_sum l / s.
Proof.
  induction l as [|x l IH]; simpl.
  - unfold Rdiv. lra.
  - rewrite IH. unfold Rdiv. lra.
Qed.

Lemma reduce_sum_exp_pos (f : R -> R) (l : list R) :
  l <> [] -> 0 < reduce_sum (map (fun x => exp (f x)) l).
Proof.
  intros Hne. destruct l as [|x l]; [contradiction|]. clear Hne. simpl.
  assert (Hrest : 0 <= reduce_sum (map (fun x => exp (f x)) l)).
  { induction l as [|y l IH]; simpl; [lra|].
    pose proof (exp_pos (f y)). lra. }
  pose proof (exp_pos (f x)). lra.
Qed.

(** Over the reals the order of the additions is immaterial: numpy's
    pairwise sum is the sum. *)
Lemma reduce_sum_app (l1 l2 : list R) :
  reduce_sum (l1 ++ l2) = reduce_sum l1 + reduce_sum l2.
Proof.
  induction l1 as [|x l1 IH]; simpl; [lra|]. rewrite IH. lra.
Qed.

Lemma reduce_sum_firstn_skipn (n : nat) (l : list R) :
  reduce_sum (firstn n l) + reduce_sum (skipn n l) = reduce_sum l.
Proof. rewrite <- reduce_sum_app, firstn_skipn. reflexivity. Qed.

Lemma reduce_sum_permutation (l l' : list R) :
  Permutation l l' -> reduce_sum l = reduce_sum l'.
Proof.
  unfold reduce_sum. induction 1; simpl; lra.
Qed.

(** In exact arithmetic every sum of the entries is the sum. *)
Lemma sum_of_exact (l : list R) (s : R) : sum_of l s -> s = reduce_sum l.
Proof.
  induction 1 as [|x|l1 l2 s1 s2 _ IH1 _ IH2|l l' s Hperm _ IH].
  - reflexivity.
  - unfold reduce_sum. simpl. lra.
  - rewrite reduce_sum_app. simpl. lra.
  - rewrite IH. apply reduce_sum_permutation, Hperm.
Qed.

Lemma np_sum_exact (l : list R) : np_sum l = reduce_sum l.
Proof. apply sum_of_exact, np_sum_sums. Qed.

(** What [softmax] computes over the reals. *)
Lemma softmax_unfold (w : list R) (t : R) (x : R) (rest : list R) :
  w = x :: rest ->
  let m := fold_left Rmax (map (fun y => y / t) rest) (x / t) in
  softmax w t
  = ret (map (fun wi => exp (wi / t - m)
                        / reduce_sum (map (fun wk => exp (wk / t - m)) w)) w).
Proof.
  intros -> m. unfold softmax, np_max, bind, ret.
  cbn [map n_div n_sub n_exp n_add n_zero n_max R_arith R_exp app].
  fold m. rewrite np_sum_exact, !map_map. reflexivity.
Qed.

(** On an empty vector [softmax] raises: numpy has no maximum to take. *)
Lemma softmax_empty (t : R) : raises (softmax [] t).
Proof. eexists. reflexivity. Qed.

End Softmax.

(** ** Entropy of the tempered softmax *)

Section Entropy.

Local Open Scope R_scope.

Lemma reduce_sum_map_plus (f g : R -> R) (l : list R) :
  reduce_sum (map (fun x => f x + g x) l)
  = reduce_sum (map f l) + reduce_sum (map g l).
Proof. induction l as [|x l IH]; simpl; [|rewrite IH]; lra. Qed.

Lemma reduce_sum_map_scal (c : R) (f : R -> R) (l : list R) :
  reduce_sum (map (fun x => c * f x) l) = c * reduce_sum (map f l).
Proof. induction l as [|x l IH]; simpl; [|rewrite IH]; lra. Qed.

Lemma reduce_sum_map_ext (f g : R -> R) (l : list R) :
  (forall x, In x l -> f x = g x) ->
  reduce_sum (map f l) = reduce_sum (map g l).
Proof.
  induction l as [|x l IH]; intros Hfg; simpl; [reflexivity|].
  rewrite (Hfg x (or_introl eq_refl)), IH; [reflexivity|].
  intros y Hy. apply Hfg. right; exact Hy.
Qed.

Lemma reduce_sum_map_le (f g : R -> R) (l : list R) :
  (forall x, In x l -> f x <= g x) ->
  reduce_sum (map f l) <= reduce_sum (map g l).
Proof.
  induction l as [|x l IH]; intros Hfg; simpl; [lra|].
  pose proof (Hfg x (or_introl eq_refl)).
  assert (reduce_sum (map f l) <= reduce_sum (map g l)).
  { apply IH. intros y Hy. apply Hfg. right; exact Hy. }
  lra.
Qed.

Lemma reduce_sum_map_lt (f g : R -> R) (l : list R) :
  (forall x, In x l -> f x <= g x) ->
  (exists x, In x l /\ f x < g x) ->
  reduce_sum (map f l) < reduce_sum (map g l).
Proof.
  induction l as [|x l IH]; intros Hfg (y & Hy & Hlt); [destruct Hy|].
  simpl. pose proof (Hfg x (or_introl eq_refl)) as Hx.
  assert (Hrest : forall z, In z l -> f z <= g z).
  { intros z Hz. apply Hfg. right; exact Hz. }
  destruct Hy as [<-|Hy].
  - pose proof (reduce_sum_map_le f g l Hrest). lra.
  - assert (reduce_sum (map f l) < reduce_sum (map g l)).
    { apply IH; [exact Hrest|]. exists y. split; assumption. }
    lra.
Qed.

(** Pointwise form of Gibbs' inequality. *)
Lemma gibbs_pointwise (p q : R) :
  0 < p -> 0 < q -> p * (ln q - ln p) <= q - p.
Proof.
  intros Hp Hq. pose proof (exp_ineq1_le (ln q - ln p)) as Hexp.
  unfold Rminus in Hexp at 2. rewrite exp_plus, exp_Ropp in Hexp.
  rewrite !exp_ln in Hexp by assumption.
  apply (Rmult_le_compat_l p) in Hexp; [|lra].
  replace (p * (q * / p)) with q in Hexp by (field; lra). lra.
Qed.

Lemma gibbs_pointwise_strict (p q : R) :
  0 < p -> 0 < q -> p <> q -> p * (ln q - ln p) < q - p.
Proof.
  intros Hp Hq Hne.
  assert (Hz : ln q - ln p <> 0).
  { intros Hz. apply Hne. apply ln_inv; [assumption|assumption|lra]. }
  pose proof (exp_ineq1 _ Hz) as Hexp.
  unfold Rminus in Hexp at 2. rewrite exp_plus, exp_Ropp in Hexp.
  rewrite !exp_ln in Hexp by assumption.
  apply (Rmult_lt_compat_l p) in Hexp; [|lra].
  replace (p * (q * / p)) with q in Hexp by (field; lra). lra.
Qed.

(** Gibbs' inequality for two positive weightings of the same total. *)
Lemma gibbs_strict (P Q : R -> R) (l : list R) :
  (forall x, In x l -> 0 < P x /\ 0 < Q x) ->
  reduce_sum (map P l) = reduce_sum (map Q l) ->
  (exists x, In x l /\ P x <> Q x) ->
  reduce_sum (map (fun x => P x * (ln (Q x) - ln (P x))) l) < 0.
Proof.
  intros Hpos Htot (y & Hy & Hne).
  assert (Hlt : reduce_sum (map (fun x => P x * (ln (Q x) - ln (P x))) l)
                < reduce_sum (map (fun x => Q x + -1 * P x) l)).
  { apply reduce_sum_map_lt.
    - intros x Hx. destruct (Hpos x Hx) as [Hp Hq].
      pose proof (gibbs_pointwise Hp Hq). lra.
    - exists y. split; [exact Hy|]. destruct (Hpos y Hy) as [Hp Hq].
      pose proof (gibbs_pointwise_strict Hp Hq Hne). lra. }
  rewrite reduce_sum_map_plus, reduce_sum_map_scal in Hlt. lra.
Qed.

(** The entropy of a weighting [P] with [ln (P x) = b * x - c] and total 1. *)
Lemma entropy_gibbs_form (P : R -> R) (l : list R) (b c : R) :
  (forall x, In x l -> ln (P x) = b * x - c) ->
  reduce_sum (map P l) = 1 ->
  entropy (map P l) = c - b * reduce_sum (map (fun x => P x * x) l).
Proof.
  intros Hln Htot. unfold entropy. rewrite map_map.
  rewrite (reduce_sum_map_ext (fun x => P x * ln (P x))
             (fun x => b * (P x * x) + - c * P x)).
  - rewrite reduce_sum_map_plus, !reduce_sum_map_scal, Htot. lra.
  - intros x Hx. rewrite (Hln x Hx). lra.
Qed.

(** The relative entropy of two such weightings. *)
Lemma relative_entropy_gibbs_form (P Q : R -> R) (l : list R) (b1 c1 b2 c2 : R) :
  (forall x, In x l -> ln (P x) = b1 * x - c1) ->
  (forall x, In x l -> ln (Q x) = b2 * x - c2) ->
  reduce_sum (map P l) = 1 ->
  reduce_sum (map (fun x => P x * (ln (Q x) - ln (P x))) l)
  = (b2 - b1) * reduce_sum (map (fun x => P x * x) l) + (c1 - c2).
Proof.
  intros HP HQ Htot.
  rewrite (reduce_sum_map_ext (fun x => P x * (ln (Q x) - ln (P x)))
             (fun x => (b2 - b1) * (P x * x) + (c1 - c2) * P x)).
  - rewrite reduce_sum_map_plus, !reduce_sum_map_scal, Htot. lra.
  - intros x Hx. rewrite (HP x Hx), (HQ x Hx). lra.
Qed.

(** Two weightings of that form with different slopes differ somewhere
    on a list that is not constant. *)
Lemma gibbs_forms_differ (P Q : R -> R) (l : list R) (b1 c1 b2 c2 : R) :
  (forall x, In x l -> ln (P x) = b1 * x - c1) ->
  (forall x, In x l -> ln (Q x) = b2 * x - c2) ->
  b1 <> b2 -> non_uniform l ->
  exists x, In x l /\ P x <> Q x.
Proof.
  intros HP HQ Hb (x & y & Hx & Hy & Hxy).
  destruct (Req_dec (P x) (Q x)) as [Heqx|Hnex]; [|exists x; split; assumption].
  destruct (Req_dec (P y) (Q y)) as [Heqy|Hney]; [|exists y; split; assumption].
  exfalso.
  pose proof (HP x Hx) as Hpx. pose proof (HQ x Hx) as Hqx.
  pose proof (HP y Hy) as Hpy. pose proof (HQ y Hy) as Hqy.
  rewrite Heqx in Hpx. rewrite Heqy in Hpy.
  assert (Hprod : (b1 - b2) * (x - y) = 0) by lra.
  apply Rmult_integral in Hprod. destruct Hprod; lra.
Qed.

(** The smaller slope has the larger entropy. *)
Lemma entropy_gibbs_monotone (P Q : R -> R) (l : list R) (b1 c1 b2 c2 : R) :
  (forall x, In x l -> 0 < P x /\ 0 < Q x) ->
  (forall x, In x l -> ln (P x) = b1 * x - c1) ->
  (forall x, In x l -> ln (Q x) = b2 * x - c2) ->
  reduce_sum (map P l) = 1 -> reduce_sum (map Q l) = 1 ->
  0 < b2 -> b2 < b1 -> non_uniform l ->
  entropy (map P l) < entropy (map Q l).
Proof.
  intros Hpos HP HQ HtotP HtotQ Hb2 Hb Hnu.
  destruct (@gibbs_forms_differ P Q l b1 c1 b2 c2 HP HQ) as (z & Hz & Hne); [lra|exact Hnu|].
  assert (G1 : reduce_sum (map (fun x => P x * (ln (Q x) - ln (P x))) l) < 0).
  { apply gibbs_strict; [exact Hpos|lra|]. exists z. split; assumption. }
  assert (G2 : reduce_sum (map (fun x => Q x * (ln (P x) - ln (Q x))) l) < 0).
  { apply gibbs_strict.
    - intros x Hx. destruct (Hpos x Hx). split; assumption.
    - lra.
    - exists z. split; [exact Hz|]. intros Heq. apply Hne. symmetry. exact Heq. }
  rewrite (@relative_entropy_gibbs_form P Q l b1 c1 b2 c2 HP HQ HtotP) in G1.
  rewrite (@relative_entropy_gibbs_form Q P l b2 c2 b1 c1 HQ HP HtotQ) in G2.
  rewrite (@entropy_gibbs_form P l b1 c1 HP HtotP), (@entropy_gibbs_form Q l b2 c2 HQ HtotQ).
  set (Ep := reduce_sum (map (fun x => P x * x) l)) in *.
  set (Eq := reduce_sum (map (fun x => Q x * x) l)) in *.
  assert (Hmean : Eq < Ep).
  { assert (Hprod : 0 < (b1 - b2) * (Ep - Eq)) by lra.
    destruct (Rlt_le_dec Eq Ep) as [Hlt|Hge]; [exact Hlt|exfalso].
    assert ((b1 - b2) * (Ep - Eq) <= 0).
    { replace 0 with ((b1 - b2) * 0) by lra.
      apply Rmult_le_compat_l; lra. }
    lra. }
  assert (0 < b2 * (Ep - Eq)) by (apply Rmult_lt_0_compat; lra).
  lra.
Qed.

(** The entries of [softmax w t] as a weighting of the logits. *)
Lemma softmax_weighting (w : list R) (t m : R) :
  w <> [] ->
  let s := reduce_sum (map (fun wk => exp (wk / t - m)) w) in
  let P := fun x => exp (x / t - m) / s in
  (forall x, 0 < P x) /\
  (forall x, ln (P x) = / t * x - (m + ln s)) /\
  reduce_sum (map P w) = 1.
Proof.
  intros Hne s P.
  assert (Hs : 0 < s) by (apply reduce_sum_exp_pos; exact Hne).
  split; [|split].
  - intros x. apply Rdiv_lt_0_compat; [apply exp_pos|exact Hs].
  - intros x. unfold P, Rdiv at 1.
    rewrite ln_mult; [|apply exp_pos|apply Rinv_0_lt_compat; exact Hs].
    rewrite ln_exp, ln_Rinv by exact Hs. unfold Rdiv. lra.
  - unfold P.
    rewrite <- (map_map (fun wi => exp (wi / t - m)) (fun e => e / s)).
    rewrite reduce_sum_div. fold s. field. lra.
Qed.

(** C9 (amended).  In exact real arithmetic, for logits that are not all
    equal and temperatures [0 < t1 < t2], the Shannon entropy of
    [softmax w t1] is strictly smaller than that of [softmax w t2]. *)
Theorem softmax_entropy_increasing (w : list R) (t1 t2 : R) :
  non_uniform w -> 0 < t1 -> t1 < t2 ->
  exists p q,
    softmax w t1 = ret p /\ softmax w t2 = ret q /\ entropy p < entropy q.
Proof.
  intros Hnu Ht1 Ht.
  assert (Hne : w <> []).
  { destruct Hnu as (x & _ & Hx & _). intros ->. destruct Hx. }
  destruct w as [|x rest] eqn:Hw; [contradiction|]. rewrite <- Hw in *.
  set (m1 := fold_left Rmax (map (fun y => y / t1) rest) (x / t1)).
  set (m2 := fold_left Rmax (map (fun y => y / t2) rest) (x / t2)).
  destruct (@softmax_weighting w t1 m1 Hne) as (HposP & HlnP & HtotP).
  destruct (@softmax_weighting w t2 m2 Hne) as (HposQ & HlnQ & HtotQ).
  do 2 eexists. split; [apply (softmax_unfold t1 Hw)|].
  split; [apply (softmax_unfold t2 Hw)|]. fold m1 m2.
  eapply entropy_gibbs_monotone.
  - intros y _. split; [apply HposP|apply HposQ].
  - intros y _. apply HlnP.
  - intros y _. apply HlnQ.
  - exact HtotP.
  - exact HtotQ.
  - apply Rinv_0_lt_compat. lra.
  - apply Rinv_0_lt_contravar; assumption.
  - exact Hnu.
Qed.

Lemma softmax_entropy_increasing_witness :
  exists p q,
    softmax [0; 1] 1 = ret p /\ softmax [0; 1] 2 = ret q /\
    entropy p < entropy q.
Proof.
  apply softmax_entropy_increasing; [|lra|lra].
  exists 0, 1. split; [left; reflexivity|].
  split; [right; left; reflexivity|lra].
Defined.

End Entropy.

(** C9 (as stated, refuted).  In binary64 the increase is not strict: on
    the logits [0, 10], which are not all equal, the exponential of
    [0/t - 10/t] underflows to 0 at [t = 2^-10] and at [t = 2^-9], and
    [softmax] returns the same distribution [[0, 1]] at both
    temperatures. *)
Lemma softmax_entropy_plateau :
  PrimFloat.ltb 0 0x1p-10 = true /\ PrimFloat.ltb 0x1p-10 0x1p-9 = true /\
  PrimFloat.eqb 0 10 = false /\
  softmax [0; 10]%float 0x1p-10%float = ret [0; 1]%float /\
  softmax [0; 10]%float 0x1p-9%float = ret [0; 1]%float.
Proof. repeat split; vm_compute; reflexivity. Qed.

(** ** [sample_from_output] *)

Section DrawGeneric.

Context {A : Type} `{Arith A}.

Lemma length_np_identity_rows (n : nat) (f : nat -> nat -> A) :
  List.length (map (fun i => map (f i) (seq 0 n)) (seq 0 n)) = n.
Proof. rewrite length_map, length_seq. reflexivity. Qed.

Lemma ncols_square (n : nat) (f : nat -> nat -> A) :
  ncols (map (fun i => map (f i) (seq 0 n)) (seq 0 n)) = n.
Proof.
  destruct n as [|n]; [reflexivity|].
  simpl. rewrite length_map, length_seq. reflexivity.
Qed.

(** With the component index [-1] the slices of means and of sigmas are
    empty, and for [output_dim >= 1] numpy refuses the draw. *)
Lemma draw_from_component_sentinel (mus sigs : list A) (D : Z) (sigma_temp : A) :
  (1 <= D)%Z ->
  exists msg,
    draw_from_component mus sigs D (-1) sigma_temp = raise (ValueError msg).
Proof.
  intros HD. unfold draw_from_component.
  replace ((-1 + 1) * D)%Z with 0%Z by lia.
  rewrite !py_slice_stop_0. unfold np_scale. simpl map.
  unfold np_identity. destruct (Z.ltb_spec D 0); [lia|].
  unfold bind at 1. unfold ret at 1. simpl app.
  set (n := Z.to_nat D).
  set (ident := map _ (seq 0 n)).
  assert (Hcols : ncols ident = n) by apply ncols_square.
  assert (Hrows : List.length ident = n) by apply length_np_identity_rows.
  unfold np_mul_2d_1d. rewrite Hcols. simpl List.length.
  destruct (Nat.eqb_spec n 0); [lia|]. simpl (Nat.eqb 0 1).
  destruct (Nat.eqb_spec n 1) as [Hone|Hmany].
  - eexists. unfold bind, ret, np_random_multivariate_normal.
    rewrite length_map, Hrows.
    assert (Hc : ncols (map (fun row : list A => map (fun y => n_mul (hd n_zero row) y) []) ident) = 0%nat).
    { destruct ident; reflexivity. }
    rewrite Hc, Hone. simpl. reflexivity.
  - eexists. reflexivity.
Qed.

Lemma zip_mul_seq (v : list A) (f : nat -> A) (a : nat) :
  zip_mul (map f (seq a (List.length v))) v
  = map (fun j => n_mul (f j) (nth (j - a) v n_zero)) (seq a (List.length v)).
Proof.
  revert a. induction v as [|y v IH]; intros a; [reflexivity|].
  simpl List.length. simpl seq. simpl map. simpl zip_mul.
  rewrite Nat.sub_diag. simpl nth. f_equal.
  rewrite IH. apply map_ext_in. intros j Hj. apply in_seq in Hj.
  replace (j - a)%nat with (S (j - S a)) by lia. reflexivity.
Qed.

(** [np.identity(n) * v] for a [v] of [n] entries. *)
Lemma identity_times_vector (v : list A) (D : Z) :
  len v = D ->
  exists ident,
    np_identity D = ret ident /\ np_mul_2d_1d ident v = ret (identity_scaled v).
Proof.
  intros Hlen. unfold np_identity.
  destruct (Z.ltb_spec D 0); [unfold len in Hlen; lia|].
  assert (Hn : Z.to_nat D = List.length v) by (unfold len in Hlen; lia).
  rewrite Hn. eexists. split; [reflexivity|].
  unfold np_mul_2d_1d. rewrite ncols_square, Nat.eqb_refl.
  unfold ret, identity_scaled. do 2 f_equal. rewrite map_map.
  apply map_ext. intros i. rewrite zip_mul_seq.
  apply map_ext. intros j. rewrite Nat.sub_0_r. reflexivity.
Qed.

Lemma length_identity_scaled (v : list A) :
  List.length (identity_scaled v) = List.length v.
Proof. unfold identity_scaled. apply length_np_identity_rows. Qed.

Lemma ncols_identity_scaled (v : list A) :
  ncols (identity_scaled v) = List.length v.
Proof. unfold identity_scaled. apply ncols_square. Qed.

(** What [draw_from_component] hands to numpy when both slices have
    [output_dim >= 1] entries: the means, and for the covariance the
    identity multiplied by the scaled sigmas, which are not squared. *)
Lemma draw_from_component_law (mus sigs : list A) (D m : Z) (sigma_temp : A) :
  let mus_vector := py_slice mus (Some (m * D)%Z) (Some ((m + 1) * D)%Z) in
  let sig_vector := py_slice sigs (Some (m * D)%Z) (Some ((m + 1) * D)%Z) in
  (1 <= D)%Z -> len mus_vector = D -> len sig_vector = D ->
  draw_from_component mus sigs D m sigma_temp
  = ret (MultivariateNormal mus_vector
           (identity_scaled (np_scale sig_vector sigma_temp))).
Proof.
  intros mus_vector sig_vector HD Hmu Hsig. unfold draw_from_component.
  fold mus_vector sig_vector.
  assert (Hscaled : len (np_scale sig_vector sigma_temp) = D).
  { unfold len, np_scale in *. rewrite length_map. exact Hsig. }
  destruct (identity_times_vector _ Hscaled) as (ident & Hid & Hcov).
  rewrite Hid, bind_ret_l, Hcov, bind_ret_l.
  unfold np_random_multivariate_normal.
  rewrite length_identity_scaled, ncols_identity_scaled, Nat.eqb_refl. simpl negb.
  assert (Heq : List.length mus_vector = List.length (np_scale sig_vector sigma_temp)).
  { unfold len in *. lia. }
  rewrite Heq, Nat.eqb_refl. simpl negb.
  destruct (Nat.eqb_spec (List.length (np_scale sig_vector sigma_temp)) 0) as [Hz|_];
    [unfold len in Hscaled; lia|reflexivity].
Qed.

End DrawGeneric.

Section Sentinel.

Context {A : Type} `{Arith A} `{Exp A}.

(** C10. [sample_from_output] does not look at the sentinel: when
    [sample_from_categorical] returns [-1] it goes on with [m = -1], the
    slice of means [mus[-D:0]] (and that of sigmas) is empty, and for
    [output_dim >= 1] the call ends in a [ValueError] raised by numpy,
    whatever the arithmetic; the one line of log is all that was
    reported. *)
Theorem sample_from_output_ignores_sentinel
  (params : list A) (D K : Z) (temp sigma_temp r : A)
  (mus sigs pi_logits pis : list A) :
  (1 <= D)%Z ->
  split_mixture_params params D K = ret (mus, sigs, pi_logits) ->
  softmax pi_logits temp = ret pis ->
  result (sample_from_categorical pis r) = Returns (-1)%Z ->
  py_slice mus (Some (-1 * D)%Z) (Some ((-1 + 1) * D)%Z) = [] /\
  py_slice sigs (Some (-1 * D)%Z) (Some ((-1 + 1) * D)%Z) = [] /\
  exists msg,
    sample_from_output params D K temp sigma_temp r
    = (logged (sample_from_categorical pis r), Raises (ValueError msg)).
Proof.
  intros HD Hsplit Hsoft Hm.
  replace ((-1 + 1) * D)%Z with 0%Z by lia.
  split; [apply py_slice_stop_0|]. split; [apply py_slice_stop_0|].
  destruct (draw_from_component_sentinel mus sigs sigma_temp HD) as [msg Hdraw].
  exists msg. unfold sample_from_output.
  rewrite Hsplit. unfold bind at 1, ret at 1.
  rewrite Hsoft. unfold bind at 1, ret at 1.
  destruct (sample_from_categorical pis r) as [log o]. simpl in Hm. subst o.
  unfold bind. rewrite Hdraw. unfold raise. simpl.
  rewrite app_nil_r. reflexivity.
Qed.

End Sentinel.

Section SampleReal.

Local Open Scope R_scope.

Lemma softmax_singleton (x t : R) : softmax [x] t = ret [exp (x / t - x / t) / exp (x / t - x / t)].
Proof.
  rewrite (softmax_unfold t (x := x) (rest := [])) by reflexivity.
  simpl. rewrite Rplus_0_r. reflexivity.
Qed.

Lemma softmax_singleton_one (x t : R) : softmax [x] t = ret [1].
Proof.
  rewrite softmax_singleton. unfold ret. do 3 f_equal.
  replace (x / t - x / t) with 0 by lra. rewrite exp_0. field.
Qed.

(** Over the reals the sentinel needs a draw above the total weight 1;
    the statement is exercised there with [r = 2]. *)
Lemma sample_from_output_ignores_sentinel_witness :
  py_slice [0] (Some (-1 * 1)%Z) (Some ((-1 + 1) * 1)%Z) = [] /\
  exists msg,
    sample_from_output [0; 1; 0] 1 1 1 1 2
    = (logged (sample_from_categorical [1] 2), Raises (ValueError msg)).
Proof.
  destruct (@sample_from_output_ignores_sentinel R R_arith R_exp
              [0; 1; 0] 1%Z 1%Z 1 1 2 [0] [1] [0] [1])
    as (Hmus & _ & Hraise).
  - lia.
  - reflexivity.
  - apply softmax_singleton_one.
  - unfold sample_from_categorical.
    rewrite (sample_from_categorical_none (A := R)); [reflexivity|].
    intros i Hi. simpl in Hi. assert (i = 0%nat) as -> by lia.
    apply R_geb_false. rewrite accumulated_cumulative.
    unfold cumulative. simpl. lra.
  - split; assumption.
Defined.

Lemma length_diag (v : list R) : List.length (diag v) = List.length v.
Proof. unfold diag. apply length_np_identity_rows. Qed.

Lemma ncols_diag (v : list R) : ncols (diag v) = List.length v.
Proof. unfold diag. apply ncols_square. Qed.

(** Over the reals [np.identity(n) * v] is the diagonal matrix of [v]. *)
Lemma identity_scaled_diag (v : list R) : identity_scaled v = diag v.
Proof.
  unfold identity_scaled, diag. apply map_ext. intros i.
  apply map_ext. intros j. cbn [n_mul n_one n_zero R_arith].
  destruct (Nat.eqb_spec i j) as [->|_]; lra.
Qed.

Lemma len_py_slice_block {A} (l : list A) (D m : Z) :
  (0 <= D)%Z -> (0 <= m)%Z -> ((m + 1) * D <= len l)%Z ->
  len (py_slice l (Some (m * D)%Z) (Some ((m + 1) * D)%Z)) = D.
Proof.
  intros HD Hm Hfit. rewrite py_slice_within by nia.
  unfold len in *. rewrite length_firstn, length_skipn. nia.
Qed.

Lemma softmax_total_one (w : list R) (t : R) :
  w <> [] ->
  exists pis, softmax w t = ret pis /\
              List.length pis = List.length w /\ reduce_sum pis = 1.
Proof.
  intros Hne. destruct w as [|x rest] eqn:Hw; [contradiction|].
  rewrite <- Hw in *.
  set (m := fold_left Rmax (map (fun y => y / t) rest) (x / t)).
  destruct (@softmax_weighting w t m Hne) as (_ & _ & Htot).
  eexists. split; [apply (softmax_unfold t Hw)|].
  split; [apply length_map|exact Htot].
Qed.

(** What [sample_from_output] does on well-formed input: it selects the
    first component [m] whose cumulative weight reaches the draw, and
    draws from the normal law with mean [mus[m*D:(m+1)*D]] and
    covariance [diag (sigs[m*D:(m+1)*D] * sigma_temp)]. *)
Lemma sample_from_output_law (params : list R) (D K : Z) (temp sigma_temp r : R) :
  (1 <= D)%Z -> (1 <= K)%Z -> len params = (2 * K * D + K)%Z ->
  0 <= r < 1 ->
  exists (m : nat) mus sigs pi_logits pis,
    split_mixture_params params D K = ret (mus, sigs, pi_logits) /\
    softmax pi_logits temp = ret pis /\
    first_reaching pis r m /\ (Z.of_nat m < K)%Z /\
    sample_from_output params D K temp sigma_temp r
    = ret (MultivariateNormal
             (py_slice mus (Some (Z.of_nat m * D)%Z) (Some ((Z.of_nat m + 1) * D)%Z))
             (diag (np_scale
                      (py_slice sigs (Some (Z.of_nat m * D)%Z)
                                     (Some ((Z.of_nat m + 1) * D)%Z))
                      sigma_temp))).
Proof.
  intros HD HK Hlen Hr.
  pose proof (split_mixture_params_slices params HD HK Hlen) as Hsplit.
  destruct (split_mixture_params_lengths params HD HK Hlen) as (Hmu & Hsig & Hpi).
  set (mus := firstn (Z.to_nat (K * D)) params) in *.
  set (sigs := firstn (Z.to_nat (K * D)) (skipn (Z.to_nat (K * D)) params)) in *.
  set (pi_logits := skipn (Z.to_nat (len params - K)) params) in *.
  assert (Hne : pi_logits <> []).
  { intros Heq. rewrite Heq in Hpi. unfold len in Hpi. simpl in Hpi. lia. }
  destruct (softmax_total_one temp Hne) as (pis & Hsoft & Hlpis & Htot).
  destruct (@first_reaching_exists pis r) as [m Hm].
  { intros Heq. rewrite Heq in Htot. simpl in Htot. lra. }
  { lra. }
  assert (HmK : (Z.of_nat m < K)%Z).
  { destruct Hm as (Hlt & _). unfold len in Hpi. lia. }
  exists m, mus, sigs, pi_logits, pis.
  split; [exact Hsplit|]. split; [exact Hsoft|].
  split; [exact Hm|]. split; [exact HmK|].
  unfold sample_from_output.
  rewrite Hsplit, bind_ret_l, Hsoft, bind_ret_l.
  rewrite (sample_from_categorical_determined Hm), bind_ret_l.
  rewrite draw_from_component_law;
    [rewrite identity_scaled_diag; reflexivity | exact HD | |];
    apply len_py_slice_block; nia.
Qed.

(** C1 (refuted on the code). With one component of mean 0 and sigma 2,
    [sigma_temp = 1], [sample_from_output] draws from the normal law with
    mean [[0]] and covariance [[2]]: the sigma itself, where the claim has
    its square [[4]], as has the component that [sampling_func] and the
    loss build from the same parameters with
    [MultivariateNormalDiag(loc, scale_diag)]. *)
Theorem sample_from_output_covariance_not_squared :
  exists law,
    sample_from_output [0; 2; 0] 1 1 1 1 (/ 2) = ret law /\
    mvn_mean law = [0] /\
    mvn_cov law = [[2 * 1]] /\
    mvn_cov law <> [[(1 * 2) ^ 2]] /\
    snd (sampling_func_mixture 1 1 [0; 2; 0]) = [MultivariateNormal [0] [[2 * 2]]] /\
    snd (sampling_func_mixture 1 1 [0; 2; 0]) <> [law].
Proof.
  destruct (@sample_from_output_law [0; 2; 0] 1 1 1 1 (/ 2))
    as (m & mus & sigs & pi_logits & pis & Hsplit & _ & _ & Hm & Hlaw);
    [lia | lia | reflexivity | lra |].
  assert (m = 0%nat) as -> by lia.
  injection Hsplit as <- <- <-.
  eexists. split; [exact Hlaw|].
  split; [reflexivity|]. split; [reflexivity|]. split; [|split].
  - simpl. intros Heq. injection Heq as Heq. lra.
  - reflexivity.
  - simpl. intros Heq. injection Heq as Heq. lra.
Qed.

End SampleReal.

(** ** [loss_func] *)

Section Loss.

Local Open Scope R_scope.

Lemma length_concat_rows (rows : list (list R)) (k : nat) :
  Forall (fun row => List.length row = k) rows ->
  List.length (List.concat rows) = (List.length rows * k)%nat.
Proof.
  induction 1 as [|row rows Hrow _ IH]; simpl; [reflexivity|].
  rewrite length_app, IH, Hrow. reflexivity.
Qed.

Lemma rows_of_concat (rows : list (list R)) (k : nat) :
  Forall (fun row => List.length row = k) rows ->
  map (fun i => firstn k (skipn (i * k) (List.concat rows))) (seq 0 (List.length rows))
  = rows.
Proof.
  induction 1 as [|row rows Hrow _ IH]; [reflexivity|].
  simpl List.length. simpl seq. simpl map. f_equal.
  - simpl. rewrite firstn_app, Hrow, Nat.sub_diag. simpl.
    rewrite app_nil_r. apply firstn_all2. lia.
  - rewrite <- seq_shift, map_map. rewrite <- IH at 2.
    apply map_ext. intros i. f_equal. simpl List.concat.
    replace (S i * k)%nat with (i * k + List.length row)%nat by (simpl; lia).
    rewrite <- skipn_skipn. f_equal.
    rewrite skipn_app, Nat.sub_diag, skipn_all. reflexivity.
Qed.

(** Reshaping the entries of [B] rows of length [n] gives the rows back. *)
Lemma tf_reshape_rows_concat (rows : list (list R)) (n : Z) :
  (0 < n)%Z -> Forall (fun row => len row = n) rows ->
  tf_reshape_rows (List.concat rows) n = ret rows.
Proof.
  intros Hn Hrows.
  assert (Hrows' : Forall (fun row => List.length row = Z.to_nat n) rows).
  { eapply Forall_impl; [|exact Hrows]. intros row Hrow. unfold len in Hrow. lia. }
  pose proof (length_concat_rows Hrows') as Hlen.
  unfold tf_reshape_rows. destruct (Z.ltb_spec n 0); [lia|].
  destruct (Z.eqb_spec n 0); [lia|].
  assert (Hmod : (len (List.concat rows) mod n = 0)%Z).
  { unfold len. rewrite Hlen, Nat2Z.inj_mul, Z2Nat.id by lia.
    apply Z.mod_mul. lia. }
  rewrite Hmod. simpl. rewrite Hlen, Nat.div_mul by lia.
  rewrite (rows_of_concat Hrows'). reflexivity.
Qed.

Lemma sum_repeat (d : Z) (k : nat) :
  fold_right Z.add 0%Z (repeat d k) = (Z.of_nat k * d)%Z.
Proof. induction k as [|k IH]; simpl repeat; simpl fold_right; [|rewrite IH]; lia. Qed.

Lemma forallb_repeat (f : Z -> bool) (d : Z) (k : nat) :
  f d = true -> forallb f (repeat d k) = true.
Proof. intros Hd. induction k as [|k IH]; simpl; [|rewrite Hd, IH]; reflexivity. Qed.

(** Once both reshapes have gone through, the sizes handed to [tf.split]
    fit the rows. *)
Lemma loss_split_fits (D K : Z) :
  (0 < K)%Z -> (0 <= D)%Z -> mixture_builds D K = true.
Proof.
  intros HK HD.
  unfold mixture_builds, tf_split_fits. rewrite sum_repeat, forallb_repeat.
  - simpl forallb. simpl fold_right.
    repeat match goal with
           | |- context [(?a <=? ?b)%Z] => destruct (Z.leb_spec a b); [|nia]
           | |- context [(?a =? ?b)%Z] => destruct (Z.eqb_spec a b); [|nia]
           | |- context [(?a <? ?b)%Z] => destruct (Z.ltb_spec a b); [|nia]
           end.
    reflexivity.
  - apply Z.leb_le. lia.
Qed.

(** Over the reals the closing reduction is the mean of the negated
    values. *)
Lemma loss_reduction_exact (l : list R) :
  loss_reduction l = reduce_mean (map Ropp l).
Proof.
  unfold loss_reduction, tf_reduce_mean, reduce_mean.
  cbn [n_div n_add n_zero n_neg n_of_nat R_arith R_reducing].
  rewrite fold_left_Rplus. f_equal. lra.
Qed.

Lemma reduce_sum_repeat (v : R) (B : nat) : reduce_sum (repeat v B) = INR B * v.
Proof.
  induction B as [|B IH]; [simpl; lra|].
  simpl repeat. simpl reduce_sum. fold (reduce_sum (repeat v B)).
  rewrite IH, S_INR. lra.
Qed.

Lemma reduce_mean_repeat (v : R) (B : nat) :
  (1 <= B)%nat -> reduce_mean (repeat v B) = v.
Proof.
  intros HB. unfold reduce_mean. rewrite reduce_sum_repeat, repeat_length.
  assert (0 < INR B) by (apply lt_0_INR; lia). field. lra.
Qed.

(** The loss of a batch given by its rows. *)
Lemma loss_func_rows (D K : Z) (ys ps : list (list R)) :
  (1 <= D)%Z -> (1 <= K)%Z ->
  List.length ys = List.length ps ->
  Forall (fun y => len y = D) ys ->
  Forall (fun p => len p = (2 * K * D + K)%Z) ps ->
  loss_func D K (List.concat ys) (List.concat ps)
  = ret (reduce_mean
           (map (fun yp => - row_log_prob D K (fst yp) (snd yp)) (combine ys ps))).
Proof.
  intros HD HK Hcount Hys Hps. unfold loss_func.
  rewrite (tf_reshape_rows_concat (rows := ps)) by (try exact Hps; nia).
  rewrite bind_ret_l.
  rewrite (tf_reshape_rows_concat (rows := ys)) by (try exact Hys; lia).
  rewrite bind_ret_l.
  rewrite loss_split_fits by lia.
  unfold broadcast_rows. rewrite Hcount, Nat.eqb_refl, bind_ret_l.
  rewrite loss_reduction_exact, map_map. unfold ret. do 3 f_equal.
  apply map_ext. intros [y p]. reflexivity.
Qed.

Lemma combine_repeat {X Y} (x : X) (y : Y) (n : nat) :
  combine (repeat x n) (repeat y n) = repeat (x, y) n.
Proof. induction n as [|n IH]; simpl; [|rewrite IH]; reflexivity. Qed.

Lemma Forall_repeat {X} (P : X -> Prop) (x : X) (n : nat) :
  P x -> Forall P (repeat x n).
Proof. intros Hx. induction n; simpl; constructor; assumption. Qed.

(** The loss of [B] copies of one pair of rows. *)
Lemma loss_func_copies (D K : Z) (B : nat) (y p : list R) :
  (1 <= D)%Z -> (1 <= K)%Z -> (1 <= B)%nat ->
  len y = D -> len p = (2 * K * D + K)%Z ->
  loss_func D K (List.concat (repeat y B)) (List.concat (repeat p B))
  = ret (- row_log_prob D K y p).
Proof.
  intros HD HK HB Hy Hp.
  rewrite loss_func_rows; try assumption.
  - rewrite combine_repeat, map_repeat, reduce_mean_repeat by exact HB.
    reflexivity.
  - rewrite !repeat_length. reflexivity.
  - apply Forall_repeat, Hy.
  - apply Forall_repeat, Hp.
Qed.

Lemma tf_split_three (a b c : list R) (la lb lc : Z) :
  len a = la -> len b = lb -> len c = lc ->
  tf_split (a ++ b ++ c) [la; lb; lc] = [a; b; c].
Proof.
  intros Ha Hb Hc. unfold len in *. simpl.
  replace (Z.to_nat la) with (List.length a) by lia.
  replace (Z.to_nat lb) with (List.length b) by lia.
  replace (Z.to_nat lc) with (List.length c) by lia.
  rewrite firstn_app, Nat.sub_diag, firstn_all, firstn_O, app_nil_r.
  rewrite skipn_app, Nat.sub_diag, skipn_all, skipn_O, app_nil_l.
  rewrite firstn_app, Nat.sub_diag, firstn_all, firstn_O, app_nil_r.
  rewrite skipn_app, Nat.sub_diag, skipn_all, skipn_O, app_nil_l.
  rewrite firstn_all. reflexivity.
Qed.

(** The mixture of a row laid out as means, sigmas and logits. *)
Lemma mixture_of_row_parts (D K : Z) (mus sigs pis : list R) :
  len mus = (K * D)%Z -> len sigs = (K * D)%Z -> len pis = K ->
  mixture_of_row D K (mus ++ sigs ++ pis)
  = (pis, combine (tf_split mus (repeat D (Z.to_nat K)))
                  (tf_split sigs (repeat D (Z.to_nat K)))).
Proof.
  intros Hmu Hsig Hpi. unfold mixture_of_row.
  rewrite (@tf_split_three mus sigs pis _ _ _ Hmu Hsig Hpi). reflexivity.
Qed.

Lemma length_tf_split (l : list R) (sizes : list Z) :
  List.length (tf_split l sizes) = List.length sizes.
Proof.
  revert l. induction sizes as [|s sizes IH]; intros l; simpl; [|rewrite IH];
    reflexivity.
Qed.

Lemma nth_tf_split_repeat (l : list R) (d : Z) (n k : nat) :
  (k < n)%nat ->
  nth k (tf_split l (repeat d n)) []
  = firstn (Z.to_nat d) (skipn (k * Z.to_nat d) l).
Proof.
  revert l k. induction n as [|n IH]; intros l k Hk; [lia|].
  simpl repeat. simpl tf_split. destruct k as [|k]; [reflexivity|].
  simpl nth. rewrite IH by lia. rewrite skipn_skipn.
  do 2 f_equal. simpl. lia.
Qed.

Lemma row_pieces_app {X} (p : list X) (D K : Z) :
  (1 <= D)%Z -> (1 <= K)%Z -> len p = (2 * K * D + K)%Z ->
  p = firstn (Z.to_nat (K * D)) p
      ++ firstn (Z.to_nat (K * D)) (skipn (Z.to_nat (K * D)) p)
      ++ skipn (Z.to_nat (len p - K)) p.
Proof.
  intros HD HK Hlen. assert (HKD : (1 <= K * D)%Z) by nia.
  replace (Z.to_nat (len p - K))
    with (Z.to_nat (K * D) + Z.to_nat (K * D))%nat by lia.
  rewrite <- skipn_skipn, !firstn_skipn. reflexivity.
Qed.

(** A sum over a list is the sum over its indices. *)
Lemma sum_over_list (g : R -> R) (l : list R) :
  reduce_sum (map g l) = sum_over (List.length l) (fun i => g (nth i l 0)).
Proof.
  unfold sum_over, reduce_sum. induction l as [|x l IH]; [reflexivity|].
  cbn [map fold_right List.length]. rewrite <- cons_seq. cbn [map fold_right nth].
  rewrite <- seq_shift, map_map. f_equal. exact IH.
Qed.

Lemma sum_over_list_gen {X} (g : X -> R) (l : list X) (dflt : X) :
  reduce_sum (map g l) = sum_over (List.length l) (fun i => g (nth i l dflt)).
Proof.
  unfold sum_over, reduce_sum. induction l as [|x l IH]; [reflexivity|].
  cbn [map fold_right List.length]. rewrite <- cons_seq. cbn [map fold_right nth].
  rewrite <- seq_shift, map_map. f_equal. exact IH.
Qed.

Lemma sum_over_ext (n : nat) (f g : nat -> R) :
  (forall i, (i < n)%nat -> f i = g i) -> sum_over n f = sum_over n g.
Proof.
  intros Hfg. unfold sum_over. f_equal. apply map_ext_in.
  intros i Hi. apply in_seq in Hi. apply Hfg. lia.
Qed.

Lemma product_over_ext (n : nat) (f g : nat -> R) :
  (forall i, (i < n)%nat -> f i = g i) -> product_over n f = product_over n g.
Proof.
  intros Hfg. unfold product_over. f_equal. apply map_ext_in.
  intros i Hi. apply in_seq in Hi. apply Hfg. lia.
Qed.

Lemma product_over_S (n : nat) (f : nat -> R) :
  product_over (S n) f = f 0%nat * product_over n (fun i => f (S i)).
Proof.
  unfold product_over. rewrite <- cons_seq. cbn [map fold_right].
  rewrite <- seq_shift, map_map. reflexivity.
Qed.

(** [reduce_logsumexp] is the logarithm of the sum of the exponentials. *)
Lemma reduce_max_shift_sum (l : list R) (m : R) :
  reduce_sum (map (fun x => exp (x - m)) l) = exp (- m) * reduce_sum (map exp l).
Proof.
  unfold reduce_sum. induction l as [|x l IH]; simpl; [ring|].
  rewrite IH. unfold Rminus. rewrite exp_plus. ring.
Qed.

Lemma reduce_sum_exp_positive (l : list R) :
  l <> [] -> 0 < reduce_sum (map exp l).
Proof.
  intros Hne. destruct l as [|x l]; [contradiction|]. unfold reduce_sum. simpl.
  assert (Hrest : 0 <= fold_right Rplus 0 (map exp l)).
  { clear. induction l as [|y l IH]; simpl; [lra|]. pose proof (exp_pos y). lra. }
  pose proof (exp_pos x). lra.
Qed.

Lemma reduce_logsumexp_ln (l : list R) :
  l <> [] -> reduce_logsumexp l = ln (reduce_sum (map exp l)).
Proof.
  intros Hne. unfold reduce_logsumexp. set (m := reduce_max l).
  rewrite reduce_max_shift_sum.
  pose proof (reduce_sum_exp_positive Hne) as Hpos.
  rewrite ln_mult by (try apply exp_pos; exact Hpos).
  rewrite ln_exp. lra.
Qed.

Lemma ln_sqrt_2PI : ln (R_sqrt.sqrt (2 * PI)) = / 2 * ln (2 * PI).
Proof.
  assert (H2pi : 0 < 2 * PI) by (pose proof PI_RGT_0; lra).
  rewrite <- (Rpower_sqrt _ H2pi). unfold Rpower. apply ln_exp.
Qed.

(** The term that [MultivariateNormalDiag] adds for one dimension is the
    logarithm of the normal density. *)
Lemma gaussian_density_exp (mu sigma x : R) :
  0 < sigma ->
  exp (- / 2 * ((x - mu) / sigma) ^ 2 - / 2 * ln (2 * PI) - ln (Rabs sigma))
  = gaussian_density mu sigma x.
Proof.
  intros Hs. unfold gaussian_density.
  assert (H2pi : 0 < 2 * PI) by (pose proof PI_RGT_0; lra).
  assert (Hsq : 0 < R_sqrt.sqrt (2 * PI)) by (apply sqrt_lt_R0; exact H2pi).
  rewrite Rabs_right by lra. rewrite <- ln_sqrt_2PI.
  unfold Rminus. rewrite !exp_plus, !exp_Ropp, !exp_ln by assumption.
  replace (- / 2 * ((x + - mu) / sigma) ^ 2) with (- ((x + - mu) / sigma) ^ 2 / 2) by lra.
  field. split; lra.
Qed.

Lemma normal_diag_density (loc scale x : list R) :
  List.length loc = List.length x -> List.length scale = List.length x ->
  (forall d, (d < List.length x)%nat -> 0 < nth d scale 0) ->
  exp (normal_diag_log_prob loc scale x)
  = product_over (List.length x)
      (fun d => gaussian_density (nth d loc 0) (nth d scale 0) (nth d x 0)).
Proof.
  revert loc scale. induction x as [|xi x IH]; intros loc scale Hl Hs Hpos.
  - destruct loc; [|discriminate]. simpl. unfold product_over. simpl. apply exp_0.
  - destruct loc as [|m loc]; [discriminate|]. destruct scale as [|s scale]; [discriminate|].
    cbn [normal_diag_log_prob List.length]. rewrite product_over_S. cbn [nth].
    rewrite exp_plus. rewrite gaussian_density_exp by (apply (Hpos 0%nat); simpl; lia).
    f_equal. apply IH.
    + simpl in Hl. lia.
    + simpl in Hs. lia.
    + intros d Hd. apply (Hpos (S d)). simpl. lia.
Qed.

Lemma nth_block (l : list R) (n k d : nat) :
  (d < n)%nat ->
  nth d (firstn n (skipn (k * n) l)) 0 = nth (k * n + d) l 0.
Proof.
  intros Hd. rewrite nth_firstn.
  destruct (Nat.ltb_spec d n); [|lia]. apply nth_skipn.
Qed.

Lemma length_block (l : list R) (n k K : nat) :
  (k < K)%nat -> List.length l = (K * n)%nat ->
  List.length (firstn n (skipn (k * n) l)) = n.
Proof.
  intros Hk Hl. rewrite length_firstn, length_skipn. nia.
Qed.

Lemma nth_categorical_log_probs (pis : list R) (k : nat) :
  pis <> [] -> (k < List.length pis)%nat ->
  exp (nth k (categorical_log_probs pis) 0)
  = exp (nth k pis 0)
    / sum_over (List.length pis) (fun j => exp (nth j pis 0)).
Proof.
  intros Hne Hk. unfold categorical_log_probs.
  rewrite (nth_indep _ 0 (0 - reduce_logsumexp pis)) by (rewrite length_map; exact Hk).
  rewrite (map_nth (fun x => x - reduce_logsumexp pis)).
  rewrite reduce_logsumexp_ln by exact Hne.
  pose proof (reduce_sum_exp_positive Hne) as Hpos.
  unfold Rminus. rewrite exp_plus, exp_Ropp, exp_ln by exact Hpos.
  rewrite <- sum_over_list. reflexivity.
Qed.

(** The log-likelihood that the code computes for a row is the logarithm
    of the mixture density of the specification. *)
Lemma row_log_prob_density (D K : Z) (y p : list R) :
  (1 <= D)%Z -> (1 <= K)%Z -> len y = D -> len p = (2 * K * D + K)%Z ->
  sigmas_positive D K p ->
  row_log_prob D K y p = ln (mixture_density D K p y).
Proof.
  intros HD HK Hy Hlen Hpos. assert (HKD : (1 <= K * D)%Z) by nia.
  destruct (split_mixture_params_lengths p HD HK Hlen) as (Hmu & Hsig & Hpi).
  set (mus := firstn (Z.to_nat (K * D)) p) in *.
  set (sigs := firstn (Z.to_nat (K * D)) (skipn (Z.to_nat (K * D)) p)) in *.
  set (pis := skipn (Z.to_nat (len p - K)) p) in *.
  assert (Hp : p = mus ++ sigs ++ pis) by (apply row_pieces_app; assumption).
  assert (Hmix : mixture_of_row D K p
                 = (pis, combine (tf_split mus (repeat D (Z.to_nat K)))
                                 (tf_split sigs (repeat D (Z.to_nat K))))).
  { rewrite Hp at 1. apply mixture_of_row_parts; assumption. }
  assert (Hne : pis <> []).
  { intros Heq. rewrite Heq in Hpi. unfold len in Hpi. simpl in Hpi. lia. }
  assert (HlenK : List.length pis = Z.to_nat K) by (unfold len in Hpi; lia).
  assert (HKDn : Z.to_nat (K * D) = (Z.to_nat K * Z.to_nat D)%nat) by nia.
  unfold row_log_prob. rewrite Hmix. unfold mixture_log_prob.
  set (comps := combine (tf_split mus (repeat D (Z.to_nat K)))
                        (tf_split sigs (repeat D (Z.to_nat K)))).
  assert (Hcomps : List.length comps = Z.to_nat K).
  { unfold comps. rewrite length_combine, !length_tf_split, repeat_length.
    apply Nat.min_id. }
  assert (Hclp : List.length (categorical_log_probs pis) = Z.to_nat K).
  { unfold categorical_log_probs. rewrite length_map. exact HlenK. }
  assert (Hall : List.length (combine (categorical_log_probs pis) comps) = Z.to_nat K).
  { rewrite length_combine, Hclp, Hcomps. apply Nat.min_id. }
  rewrite reduce_logsumexp_ln.
  2:{ intros Heq. apply (f_equal (@List.length R)) in Heq.
      rewrite length_map, Hall in Heq. simpl in Heq. lia. }
  f_equal. rewrite map_map.
  rewrite (sum_over_list_gen _ _ (0, (@nil R, @nil R))), Hall.
  unfold mixture_density. apply sum_over_ext. intros k Hk.
  rewrite combine_nth by (rewrite Hclp, Hcomps; reflexivity).
  unfold comps. rewrite combine_nth by (rewrite !length_tf_split; reflexivity).
  rewrite !nth_tf_split_repeat by exact Hk.
  rewrite exp_plus. f_equal.
  - rewrite nth_categorical_log_probs by (try exact Hne; lia).
    unfold mixture_weight, row_logit. rewrite HlenK.
    assert (Hnth : forall j, nth j pis 0 = nth (Z.to_nat (2 * K * D) + j) p 0).
    { intros j. unfold pis. rewrite nth_skipn. f_equal. lia. }
    rewrite Hnth. f_equal. apply sum_over_ext. intros j _. rewrite Hnth. reflexivity.
  - assert (Hyn : List.length y = Z.to_nat D) by (unfold len in Hy; lia).
    rewrite normal_diag_density.
    + rewrite Hyn. apply product_over_ext. intros d Hd.
      rewrite !nth_block by exact Hd. unfold row_mu, row_sigma.
      f_equal.
      * unfold mus. rewrite nth_firstn.
        destruct (Nat.ltb_spec (k * Z.to_nat D + d) (Z.to_nat (K * D))); [reflexivity|nia].
      * unfold sigs. rewrite nth_firstn.
        destruct (Nat.ltb_spec (k * Z.to_nat D + d) (Z.to_nat (K * D))); [|nia].
        apply nth_skipn.
    + rewrite Hyn. apply (@length_block mus (Z.to_nat D) k (Z.to_nat K) Hk).
      unfold len in Hmu. lia.
    + rewrite Hyn. apply (@length_block sigs (Z.to_nat D) k (Z.to_nat K) Hk).
      unfold len in Hsig. lia.
    + intros d Hd. rewrite Hyn in Hd. rewrite nth_block by exact Hd.
      unfold sigs. rewrite nth_firstn.
      destruct (Nat.ltb_spec (k * Z.to_nat D + d) (Z.to_nat (K * D))); [|nia].
      rewrite nth_skipn. apply (Hpos k d Hk Hd).
Qed.

(** C8 (amended).  The loss is the sum over the rows of the negated
    mixture log-likelihood of each row, divided by the number of rows;
    the log-likelihood of a row is the logarithm of the mixture density
    of the specification (softmax weights, products of normal densities
    with the row's means and positive standard deviations).  On [B >= 1]
    copies of one target row and one prediction row the value is that
    row's negated log-likelihood.  The values are those of exact
    arithmetic, which the floating-point loss rounds. *)
Theorem loss_func_mean_of_rows (D K : Z) :
  (1 <= D)%Z -> (1 <= K)%Z ->
  (forall ys ps,
     ys <> [] -> List.length ys = List.length ps ->
     Forall (fun y => len y = D) ys ->
     Forall (fun p => len p = (2 * K * D + K)%Z) ps ->
     Forall (sigmas_positive D K) ps ->
     loss_func D K (List.concat ys) (List.concat ps)
     = ret (fold_right Rplus 0
              (map (fun yp => - ln (mixture_density D K (snd yp) (fst yp)))
                   (combine ys ps))
            / INR (List.length ys))) /\
  (forall (B : nat) y p,
     (1 <= B)%nat -> len y = D -> len p = (2 * K * D + K)%Z ->
     sigmas_positive D K p ->
     loss_func D K (List.concat (repeat y B)) (List.concat (repeat p B))
     = ret (- ln (mixture_density D K p y))).
Proof.
  intros HD HK. split.
  - intros ys ps _ Hcount Hys Hps Hpos.
    rewrite loss_func_rows by assumption. unfold reduce_mean, reduce_sum.
    rewrite length_map, length_combine, <- Hcount, Nat.min_id.
    assert (Hrows : map (fun yp => - row_log_prob D K (fst yp) (snd yp)) (combine ys ps)
                    = map (fun yp => - ln (mixture_density D K (snd yp) (fst yp)))
                          (combine ys ps)).
    { apply map_ext_in. intros [y p] Hin. cbn [fst snd].
      rewrite Forall_forall in Hys, Hps, Hpos.
      rewrite row_log_prob_density; try assumption; try reflexivity.
      - apply Hys. apply (in_combine_l _ _ _ _ Hin).
      - apply Hps. apply (in_combine_r _ _ _ _ Hin).
      - apply Hpos. apply (in_combine_r _ _ _ _ Hin). }
    rewrite Hrows. reflexivity.
  - intros B y p HB Hy Hp Hpos.
    rewrite loss_func_copies by assumption.
    rewrite row_log_prob_density by assumption. reflexivity.
Qed.

Lemma loss_func_mean_of_rows_witness :
  loss_func 1 1 (List.concat [[0]; [2]]) (List.concat [[0; 1; 0]; [0; 1; 0]])
  = ret (fold_right Rplus 0
           [- ln (mixture_density 1 1 [0; 1; 0] [0]);
            - ln (mixture_density 1 1 [0; 1; 0] [2])] / INR 2) /\
  loss_func 1 1 (List.concat (repeat [0] 3)) (List.concat (repeat [0; 1; 0] 3))
  = ret (- ln (mixture_density 1 1 [0; 1; 0] [0])).
Proof.
  assert (Hpos : sigmas_positive 1 1 [0; 1; 0]).
  { intros k d Hk Hd. assert (k = 0%nat) as -> by lia.
    assert (d = 0%nat) as -> by lia. unfold row_sigma. simpl. lra. }
  destruct (@loss_func_mean_of_rows 1 1) as [Hrows Hcopies]; [lia | lia |].
  split.
  - apply (Hrows [[0]; [2]] [[0; 1; 0]; [0; 1; 0]]);
      [discriminate | reflexivity | | |]; repeat constructor; exact Hpos.
  - apply (Hcopies 3%nat [0] [0; 1; 0]); [lia | reflexivity | reflexivity | exact Hpos].
Defined.

(** The model of the likelihood on the simplest mixture: one component
    with mean 0 and sigma 1 scores the target 0 with the log-density of
    the standard normal at 0, whatever the single logit. *)
Lemma row_log_prob_standard_normal (c : R) :
  row_log_prob 1 1 [0] [0; 1; c] = - / 2 * ln (2 * PI).
Proof.
  unfold row_log_prob, mixture_of_row, mixture_log_prob, categorical_log_probs,
    reduce_logsumexp.
  simpl. rewrite !Rplus_0_r.
  replace (c - c) with 0 by lra. rewrite exp_0, ln_1.
  replace (c - (c + 0)) with 0 by lra.
  replace ((0 - 0) / 1 * ((0 - 0) / 1 * 1)) with 0 by (field; lra).
  rewrite Rabs_R1, ln_1.
  set (v := 0 + (- / 2 * 0 - / 2 * ln (2 * PI) - 0)).
  replace (v - v) with 0 by lra. rewrite exp_0, ln_1. unfold v. lra.
Qed.

End Loss.

(** C8 (as stated, refuted).  The closing steps of [loss_func],
    [tf.negative] and [tf.reduce_mean], run in binary64 on three rows of
    one and the same log-likelihood [v] (here the binary64 number next to
    [-0.1]) do not give what they give on one such row: the three negated
    values add up to [0.30000000000000004], a third of which is
    [0.10000000000000002], while the single row gives [0.1]. *)
Lemma loss_reduction_of_copies :
  let v := (- 0x1.999999999999ap-4)%float in
  loss_reduction [v] = 0x1.999999999999ap-4%float /\
  loss_reduction [v; v; v] = 0x1.999999999999bp-4%float /\
  PrimFloat.eqb (loss_reduction [v; v; v]) (loss_reduction [v]) = false.
Proof. cbv zeta. repeat split; vm_compute; reflexivity. Qed.

(** ** The sentinel in binary64

    Seven equal logits give seven weights [1/7] (each is [exp 0 / 7]);
    their running sum stops at [1 - 2^-52], below the draw [1 - 2^-53],
    which is less than 1.  The sampler returns [-1] and the draw that
    follows, here for two dimensions, is refused by numpy. *)

Section Binary64.

Local Open Scope float_scope.

Example binary64_draw_below_one :
  PrimFloat.ltb 0x1.fffffffffffffp-1 1 = true.
Proof. vm_compute. reflexivity. Qed.

Example binary64_sentinel_reaches_the_draw :
  (m <- sample_from_categorical (repeat (1 / 7) 7) 0x1.fffffffffffffp-1 ;;
   draw_from_component (repeat 0 14) (repeat 1 14) 2 m 1)%py
  = (["Error sampling categorical model."%string],
     Raises (ValueError "operands could not be broadcast together")).
Proof. vm_compute. reflexivity. Qed.

(** With a draw that the running sum reaches, the same call goes through. *)
Example binary64_draw_from_component :
  (m <- sample_from_categorical (repeat (1 / 7) 7) 0.5 ;;
   draw_from_component [1; 2; 3; 4; 5; 6; 7; 8; 9; 10; 11; 12; 13; 14]
                       (repeat 0.5 14) 2 m 1)%py
  = ret (MultivariateNormal [7; 8] [[0.5; 0]; [0; 0.5]]).
Proof. vm_compute. reflexivity. Qed.

End Binary64.

(** * Further properties of the code *)

(** ** [split_mixture_params] off the expected length *)

Section SplitEdges.

Context {A : Type}.

Lemma len_py_slice (l : list A) (lo hi : option Z) :
  let n := len l in
  let start := match lo with Some i => slice_index n i | None => 0%Z end in
  let stop := match hi with Some i => slice_index n i | None => n end in
  len (py_slice l lo hi) = Z.max 0 (stop - start).
Proof.
  intros n start stop. unfold py_slice. fold n. fold start. fold stop.
  assert (Hs : (0 <= start <= n)%Z).
  { subst start. destruct lo; [apply slice_index_bounds|]; pose proof (len_nonneg l); lia. }
  assert (He : (0 <= stop <= n)%Z).
  { subst stop. destruct hi; [apply slice_index_bounds|]; pose proof (len_nonneg l); lia. }
  unfold len in *. rewrite length_firstn, length_skipn. lia.
Qed.

(** X1. Whatever the length [n] of the vector, for [D >= 0] and [K >= 1]
    the slices have [min (K*D) n], [min (2*K*D) n - min (K*D) n] and
    [min K n] entries: a short vector is cut silently. *)
Theorem split_mixture_params_lengths_any (params : list A) (D K : Z) :
  (0 <= D)%Z -> (1 <= K)%Z ->
  exists mus sigs pi_logits,
    split_mixture_params params D K = ret (mus, sigs, pi_logits) /\
    len mus = Z.min (K * D) (len params) /\
    len sigs = (Z.min (2 * K * D) (len params) - Z.min (K * D) (len params))%Z /\
    len pi_logits = Z.min K (len params).
Proof.
  intros HD HK. assert (HKD : (0 <= K * D)%Z) by nia.
  pose proof (len_nonneg params) as Hn.
  unfold split_mixture_params. do 3 eexists. split; [reflexivity|].
  rewrite !len_py_slice. unfold slice_index.
  destruct (Z.ltb_spec (K * D) 0); [lia|].
  destruct (Z.ltb_spec (2 * K * D) 0); [lia|].
  destruct (Z.ltb_spec (- K) 0); [|lia].
  repeat split; lia.
Qed.

End SplitEdges.

Lemma split_mixture_params_lengths_any_witness :
  exists mus sigs pi_logits,
    split_mixture_params [1; 2; 3; 4; 5]%Z 2 2 = ret (mus, sigs, pi_logits) /\
    len mus = 4%Z /\ len sigs = 1%Z /\ len pi_logits = 2%Z.
Proof.
  destruct (@split_mixture_params_lengths_any Z [1; 2; 3; 4; 5]%Z 2 2)
    as (mus & sigs & pis & Heq & Hmu & Hsig & Hpi); [lia | lia |].
  exists mus, sigs, pis. repeat split; assumption.
Defined.

(** X2. On a vector with at least the expected [2*K*D+K] entries the
    entries between [sigs] and [pi_logits] are dropped without notice:
    the vector is [mus ++ sigs ++ gap ++ pi_logits] with a gap of
    [len params - (2*K*D+K)] entries. *)
Theorem split_mixture_params_surplus (A : Type) (params : list A) (D K : Z) :
  (1 <= D)%Z -> (1 <= K)%Z -> (2 * K * D + K <= len params)%Z ->
  exists mus sigs gap pi_logits,
    split_mixture_params params D K = ret (mus, sigs, pi_logits) /\
    params = mus ++ sigs ++ gap ++ pi_logits /\
    len mus = (K * D)%Z /\ len sigs = (K * D)%Z /\ len pi_logits = K /\
    len gap = (len params - (2 * K * D + K))%Z.
Proof.
  intros HD HK Hlen. assert (HKD : (1 <= K * D)%Z) by nia.
  unfold split_mixture_params.
  rewrite py_slice_prefix by lia.
  rewrite py_slice_within by lia.
  rewrite py_slice_suffix by lia.
  replace (2 * K * D - K * D)%Z with (K * D)%Z by lia.
  set (kd := Z.to_nat (K * D)).
  set (g := Z.to_nat (len params - (2 * K * D + K))).
  exists (firstn kd params), (firstn kd (skipn kd params)),
         (firstn g (skipn kd (skipn kd params))),
         (skipn (Z.to_nat (len params - K)) params).
  split; [reflexivity|]. split.
  - replace (Z.to_nat (len params - K)) with (g + (kd + kd))%nat by lia.
    rewrite <- (skipn_skipn g (kd + kd)), <- (skipn_skipn kd kd).
    rewrite !firstn_skipn. reflexivity.
  - unfold len in *. rewrite !length_firstn, !length_skipn. lia.
Qed.

Lemma split_mixture_params_surplus_witness :
  exists mus sigs gap pi_logits,
    split_mixture_params [1; 2; 3; 4; 5]%Z 1 1 = ret (mus, sigs, pi_logits) /\
    [1; 2; 3; 4; 5]%Z = mus ++ sigs ++ gap ++ pi_logits /\ len gap = 2%Z.
Proof.
  destruct (@split_mixture_params_surplus Z [1; 2; 3; 4; 5]%Z 1 1)
    as (mus & sigs & gap & pis & Heq & Happ & _ & _ & _ & Hgap);
    [lia | lia | unfold len; simpl; lia |].
  exists mus, sigs, gap, pis. repeat split; assumption.
Defined.

(** X3. With [num_mixes = 0] the slice [params[-0:]] is the whole vector:
    [mus] and [sigs] are empty and [pi_logits] is [params] itself. *)
Theorem split_mixture_params_no_mixes (A : Type) (params : list A) (D : Z) :
  split_mixture_params params D 0 = ret ([], [], params).
Proof.
  unfold split_mixture_params. simpl Z.mul. simpl Z.opp.
  rewrite py_slice_stop_0, py_slice_stop_0.
  unfold py_slice, slice_index. simpl. rewrite Z.min_l by apply len_nonneg.
  rewrite Z.sub_0_r. unfold len. rewrite Nat2Z.id, firstn_all. reflexivity.
Qed.

Section SoftmaxErrors.

Context {A : Type} `{Arith A} `{Exp A}.

(** X7. In any arithmetic [softmax] raises exactly on the empty vector,
    a [ValueError]; on every other vector it returns a vector of the
    same length and logs nothing. *)
Theorem softmax_raises_iff_empty (w : list A) (t : A) :
  (w = [] -> exists msg, softmax w t = raise (ValueError msg)) /\
  (w <> [] -> exists dist, softmax w t = ret dist /\
                           List.length dist = List.length w) /\
  (raises (softmax w t) <-> w = []).
Proof.
  destruct w as [|x rest].
  - split; [intros _; eexists; reflexivity|].
    split; [intros Hne; contradiction|].
    split; [reflexivity|]. intros _. eexists. reflexivity.
  - split; [discriminate|].
    assert (Hret : exists dist, softmax (x :: rest) t = ret dist /\
                                List.length dist = List.length (x :: rest)).
    { eexists. split; [reflexivity|]. rewrite !length_map. reflexivity. }
    split; [intros _; exact Hret|].
    split; [|discriminate].
    intros [e He]. destruct Hret as (dist & Heq & _).
    rewrite Heq in He. discriminate He.
Qed.

End SoftmaxErrors.

Lemma softmax_raises_iff_empty_witness :
  exists dist, softmax [1; 2; 3]%R 1%R = ret dist /\ List.length dist = 3%nat.
Proof.
  destruct (@softmax_raises_iff_empty R R_arith R_exp [1; 2; 3]%R 1%R)
    as (_ & Hret & _).
  apply Hret. discriminate.
Defined.

(** ** [sample_from_categorical]: range, order and zero weights *)

Section CategoricalRange.

Context {A : Type} `{Arith A}.

(** X8. In any arithmetic [sample_from_categorical] returns either an
    index of [dist], logging nothing, or [-1] together with the one log
    line; on the empty distribution it is always [-1]. *)
Theorem sample_from_categorical_range (dist : list A) (r : A) :
  ((exists i, (i < List.length dist)%nat /\
              sample_from_categorical dist r = ret (Z.of_nat i)) \/
   sample_from_categorical dist r
   = (["Error sampling categorical model."%string], Returns (-1)%Z)) /\
  sample_from_categorical [] r
  = (["Error sampling categorical model."%string], Returns (-1)%Z).
Proof.
  split; [|reflexivity].
  unfold sample_from_categorical.
  pose proof (categorical_loop_spec dist r 0%Z n_zero) as Hs.
  destruct (categorical_loop dist r 0 n_zero) as [z|].
  - left. destruct Hs as (k & -> & Hk & _). exists k. split; [exact Hk|reflexivity].
  - right. reflexivity.
Qed.

End CategoricalRange.

Section CategoricalOrder.

Local Open Scope R_scope.

Lemma sample_from_categorical_returns (dist : list R) (r : R) (i : nat) :
  sample_from_categorical dist r = ret (Z.of_nat i) -> first_reaching dist r i.
Proof.
  unfold sample_from_categorical.
  pose proof (categorical_loop_spec dist r 0%Z n_zero) as Hs.
  destruct (categorical_loop dist r 0 n_zero) as [z|]; [|discriminate].
  destruct Hs as (k & -> & Hk & Hhit & Hmiss). intros Heq.
  injection Heq as Heq. assert (k = i) by lia. subst k.
  split; [exact Hk|]. split.
  - rewrite <- accumulated_cumulative. apply R_geb_true, Hhit.
  - intros j Hj. rewrite <- accumulated_cumulative. apply R_geb_false, Hmiss, Hj.
Qed.

Lemma first_reaching_below (dist : list R) (r : R) (k : nat) :
  (k < List.length dist)%nat -> cumulative dist k >= r ->
  exists i, (i <= k)%nat /\ first_reaching dist r i.
Proof.
  intros Hk Hhit.
  pose proof (categorical_loop_spec dist r 0%Z n_zero) as Hs.
  destruct (categorical_loop dist r 0 n_zero) as [z|].
  - destruct Hs as (i & _ & Hi & Hhiti & Hmiss). exists i. split.
    + destruct (Nat.le_gt_cases i k) as [Hle|Hgt]; [exact Hle|exfalso].
      specialize (Hmiss k Hgt). apply R_geb_false in Hmiss.
      rewrite accumulated_cumulative in Hmiss. lra.
    + split; [exact Hi|]. split.
      * rewrite <- accumulated_cumulative. apply R_geb_true, Hhiti.
      * intros j Hj. rewrite <- accumulated_cumulative.
        apply R_geb_false, Hmiss, Hj.
  - exfalso. specialize (Hs k Hk). apply R_geb_false in Hs.
    rewrite accumulated_cumulative in Hs. lra.
Qed.

(** X9. The selected index grows with the draw: when a draw [r2] selects
    index [i2], every smaller draw [r1 <= r2] selects an index
    [i1 <= i2]. *)
Theorem sample_from_categorical_monotone (dist : list R) (r1 r2 : R) (i2 : nat) :
  r1 <= r2 ->
  sample_from_categorical dist r2 = ret (Z.of_nat i2) ->
  exists i1, (i1 <= i2)%nat /\ sample_from_categorical dist r1 = ret (Z.of_nat i1).
Proof.
  intros Hr H2. apply sample_from_categorical_returns in H2.
  destruct H2 as (Hi2 & Hhit & _).
  destruct (@first_reaching_below dist r1 i2 Hi2) as (i1 & Hle & Hfirst); [lra|].
  exists i1. split; [exact Hle|].
  apply sample_from_categorical_determined, Hfirst.
Qed.

Lemma sample_from_categorical_monotone_witness :
  exists i1, (i1 <= 2)%nat /\
             sample_from_categorical [/ 4; / 4; / 2] (/ 3) = ret (Z.of_nat i1).
Proof.
  apply (@sample_from_categorical_monotone [/ 4; / 4; / 2] (/ 3) (3 / 4) 2).
  - lra.
  - apply sample_from_categorical_determined.
    split; [simpl; lia|]. split.
    + unfold cumulative. simpl. lra.
    + intros j Hj. unfold cumulative.
      destruct j as [|[|j]]; [simpl; lra|simpl; lra|lia].
Defined.

Lemma reduce_sum_firstn_step (l : list R) (n : nat) :
  reduce_sum (firstn (S n) l) = reduce_sum (firstn n l) + nth n l 0.
Proof.
  unfold reduce_sum. revert n. induction l as [|x l IH]; intros n.
  - destruct n; simpl; lra.
  - destruct n as [|n]; [simpl; lra|].
    change (firstn (S (S n)) (x :: l)) with (x :: firstn (S n) l).
    change (firstn (S n) (x :: l)) with (x :: firstn n l).
    cbn [fold_right nth]. rewrite IH. lra.
Qed.

(** X10. An entry of weight 0 at an index [i >= 1] is never selected;
    index 0 is selected exactly when the draw is at most [dist[0]], so a
    first entry of weight 0 is selected by the draw [r = 0]. *)
Theorem sample_from_categorical_zero_weight (dist : list R) (r : R) :
  (forall i, (1 <= i)%nat -> nth i dist 0 = 0 ->
             sample_from_categorical dist r <> ret (Z.of_nat i)) /\
  (dist <> [] ->
   (sample_from_categorical dist r = ret 0%Z <-> r <= nth 0 dist 0)).
Proof.
  split.
  - intros i Hi Hzero Hret.
    apply sample_from_categorical_returns in Hret.
    destruct Hret as (_ & Hhit & Hmiss).
    destruct i as [|j]; [lia|].
    specialize (Hmiss j (Nat.lt_succ_diag_r j)).
    unfold cumulative in *. rewrite (reduce_sum_firstn_step dist (S j)) in Hhit.
    rewrite Hzero in Hhit. lra.
  - intros Hne. destruct dist as [|d rest]; [contradiction|]. split.
    + intros Hret. apply (@sample_from_categorical_returns _ r 0%nat) in Hret.
      destruct Hret as (_ & Hhit & _). unfold cumulative in Hhit.
      simpl in Hhit. simpl. lra.
    + intros Hle. apply (@sample_from_categorical_determined _ r 0%nat).
      split; [simpl; lia|]. split.
      * unfold cumulative. simpl in *. lra.
      * intros j Hj. inversion Hj.
Qed.

Lemma sample_from_categorical_zero_weight_witness :
  sample_from_categorical [/ 2; 0; / 2] (3 / 4) <> ret 1%Z /\
  sample_from_categorical [0; 1] 0 = ret 0%Z.
Proof.
  split.
  - destruct (@sample_from_categorical_zero_weight [/ 2; 0; / 2] (3 / 4))
      as [Hnever _].
    apply (Hnever 1%nat); [lia|reflexivity].
  - destruct (@sample_from_categorical_zero_weight [0; 1] 0) as [_ Hfirst].
    apply Hfirst; [discriminate|simpl; lra].
Defined.

End CategoricalOrder.


(** ** [sample_from_output]: well-formed and empty input *)

Section SampleMore.

Context {A : Type} `{Arith A} `{Exp A}.

Lemma block_of_prefix {X} (l : list X) (a b c : nat) :
  (b + a <= c)%nat -> firstn a (skipn b (firstn c l)) = firstn a (skipn b l).
Proof.
  intros Hle. rewrite skipn_firstn_comm, firstn_firstn.
  f_equal. lia.
Qed.

Lemma softmax_returns_length (w : list A) (t : A) (dist : list A) :
  softmax w t = ret dist -> List.length dist = List.length w.
Proof.
  destruct w as [|x rest]; [discriminate|].
  intros Heq. unfold softmax, np_max, bind, ret in Heq. cbn [map] in Heq.
  injection Heq as <-. cbn [List.length]. rewrite !length_map. reflexivity.
Qed.

(** X12. On a vector of [2*K*D+K] entries, in the arithmetic the code
    runs in: whenever the sampler selects an index [m] on the softmax of
    the last [K] entries (rather than returning its sentinel), [m < K]
    and [sample_from_output] raises nothing and logs nothing.  It draws
    from the normal law whose mean is the block [params[m*D:(m+1)*D]] and
    whose covariance is [np.identity(D)] times the block
    [params[K*D+m*D : K*D+(m+1)*D]] scaled by [sigma_temp]: those values
    themselves on the diagonal.  Both have [D] entries. *)
Theorem sample_from_output_well_formed (params : list A) (D K : Z)
  (temp sigma_temp r : A) (pis : list A) (m : nat) :
  (1 <= D)%Z -> (1 <= K)%Z -> len params = (2 * K * D + K)%Z ->
  softmax (skipn (Z.to_nat (2 * K * D)) params) temp = ret pis ->
  sample_from_categorical pis r = ret (Z.of_nat m) ->
  (Z.of_nat m < K)%Z /\
  exists law,
    sample_from_output params D K temp sigma_temp r = ret law /\
    mvn_mean law = firstn (Z.to_nat D) (skipn (m * Z.to_nat D) params) /\
    mvn_cov law
    = identity_scaled
        (map (fun s => n_mul s sigma_temp)
             (firstn (Z.to_nat D)
                     (skipn (Z.to_nat (K * D) + m * Z.to_nat D) params))) /\
    len (mvn_mean law) = D /\ len (mvn_cov law) = D.
Proof.
  intros HD HK Hlen Hsoft Hcat.
  pose proof (split_mixture_params_slices params HD HK Hlen) as Hsplit.
  destruct (split_mixture_params_lengths params HD HK Hlen) as (Hmu & Hsig & Hpi).
  assert (HKD : (1 <= K * D)%Z) by nia.
  replace (Z.to_nat (2 * K * D)) with (Z.to_nat (len params - K)) in Hsoft by lia.
  assert (HmK : (Z.of_nat m < K)%Z).
  { destruct (@sample_from_categorical_selected A _ pis r m Hcat) as (Hlt & _).
    pose proof (@softmax_returns_length _ temp pis Hsoft) as Hpis.
    rewrite Hpis in Hlt. unfold len in Hpi at 1. lia. }
  split; [exact HmK|].
  assert (Hmean : py_slice (firstn (Z.to_nat (K * D)) params)
                    (Some (Z.of_nat m * D)%Z) (Some ((Z.of_nat m + 1) * D)%Z)
                  = firstn (Z.to_nat D) (skipn (m * Z.to_nat D) params)).
  { rewrite py_slice_within by nia.
    replace (Z.to_nat ((Z.of_nat m + 1) * D - Z.of_nat m * D)) with (Z.to_nat D) by lia.
    replace (Z.to_nat (Z.of_nat m * D)) with (m * Z.to_nat D)%nat by nia.
    apply block_of_prefix. nia. }
  assert (Hsigma : py_slice (firstn (Z.to_nat (K * D)) (skipn (Z.to_nat (K * D)) params))
                    (Some (Z.of_nat m * D)%Z) (Some ((Z.of_nat m + 1) * D)%Z)
                  = firstn (Z.to_nat D)
                      (skipn (Z.to_nat (K * D) + m * Z.to_nat D) params)).
  { rewrite py_slice_within by nia.
    replace (Z.to_nat ((Z.of_nat m + 1) * D - Z.of_nat m * D)) with (Z.to_nat D) by lia.
    replace (Z.to_nat (Z.of_nat m * D)) with (m * Z.to_nat D)%nat by nia.
    rewrite block_of_prefix by nia. rewrite skipn_skipn.
    do 2 f_equal. lia. }
  eexists. split.
  { unfold sample_from_output.
    rewrite Hsplit, bind_ret_l, Hsoft, bind_ret_l, Hcat, bind_ret_l.
    apply draw_from_component_law; [exact HD| |]; apply len_py_slice_block; nia. }
  cbn [mvn_mean mvn_cov]. rewrite Hmean, Hsigma.
  split; [reflexivity|]. split; [reflexivity|].
  unfold len, np_scale in *.
  rewrite length_identity_scaled, length_map, !length_firstn, !length_skipn.
  split; nia.
Qed.

End SampleMore.

(** In binary64: two components with equal logits, the draw [1/4]
    selects the first. *)
Lemma sample_from_output_well_formed_witness :
  exists law,
    sample_from_output [1; 2; 3; 4; 0; 0]%float 1 2 1%float 1%float 0.25%float
    = ret law /\
    mvn_mean law = [1%float] /\ mvn_cov law = [[3%float]].
Proof.
  destruct (@sample_from_output_well_formed float binary64_arith
              binary64_exp_instance [1; 2; 3; 4; 0; 0]%float 1 2
              1%float 1%float 0.25%float [0.5; 0.5]%float 0%nat)
    as (_ & law & Hlaw & Hmean & Hcov & _);
    [lia | lia | reflexivity | vm_compute; reflexivity
     | vm_compute; reflexivity |].
  exists law. split; [exact Hlaw|]. split; [exact Hmean|].
  rewrite Hcov. vm_compute. reflexivity.
Defined.

Section SampleEmpty.

Context {A : Type} `{Arith A} `{Exp A}.

Lemma py_slice_nil (lo hi : option Z) : py_slice (@nil A) lo hi = [].
Proof. unfold py_slice. rewrite skipn_nil, firstn_nil. reflexivity. Qed.

(** X13. On the empty parameter vector [sample_from_output] ends in the
    [ValueError] of [softmax], whatever [output_dim], [num_mixes], the
    temperatures and the draw, in any arithmetic. *)
Theorem sample_from_output_empty (D K : Z) (temp sigma_temp r : A) :
  exists msg, sample_from_output [] D K temp sigma_temp r = raise (ValueError msg).
Proof.
  unfold sample_from_output, split_mixture_params. rewrite !py_slice_nil.
  eexists. reflexivity.
Qed.

End SampleEmpty.

(** ** [elu_plus_one_plus_epsilon]: monotonicity *)

Section ActivationMore.

Local Open Scope R_scope.



End ActivationMore.

(** ** [loss_func]: shapes, one component, shifted logits, joined batches *)

Section LossMore.

Local Open Scope R_scope.

Lemma loss_func_single (D K : Z) (y p : list R) :
  (1 <= D)%Z -> (1 <= K)%Z -> len y = D -> len p = (2 * K * D + K)%Z ->
  loss_func D K y p = ret (- row_log_prob D K y p).
Proof.
  intros HD HK Hy Hp.
  pose proof (@loss_func_copies D K 1 y p HD HK (le_n 1) Hy Hp) as H1.
  simpl in H1. rewrite !app_nil_r in H1. exact H1.
Qed.



Lemma logsumexp_singleton (v : R) : reduce_logsumexp [v] = v.
Proof.
  unfold reduce_logsumexp. simpl.
  replace (v - v) with 0 by lra. rewrite exp_0, Rplus_0_r, ln_1. lra.
Qed.



End LossMore.

Section LossLogits.

Local Open Scope R_scope.

Lemma Rmax_shift (a b d : R) : Rmax (a + d) (b + d) = Rmax a b + d.
Proof.
  unfold Rmax. destruct (Rle_dec (a + d) (b + d)), (Rle_dec a b); lra.
Qed.

Lemma fold_left_Rmax_shift (l : list R) (a d : R) :
  fold_left Rmax (map (fun x => x + d) l) (a + d) = fold_left Rmax l a + d.
Proof.
  revert a. induction l as [|x l IH]; intros a; simpl; [reflexivity|].
  rewrite Rmax_shift. apply IH.
Qed.

Lemma reduce_logsumexp_shift (l : list R) (d : R) :
  l <> [] ->
  reduce_logsumexp (map (fun x => x + d) l) = reduce_logsumexp l + d.
Proof.
  intros Hne. destruct l as [|a l]; [contradiction|].
  unfold reduce_logsumexp, reduce_max. cbn [map].
  rewrite fold_left_Rmax_shift.
  set (m := fold_left Rmax l a).
  rewrite map_map.
  change (exp (a + d - (m + d)) :: map (fun x => exp (x + d - (m + d))) l)
    with (map (fun x => exp (x + d - (m + d))) (a :: l)).
  change (exp (a - m) :: map (fun x => exp (x - m)) l)
    with (map (fun x => exp (x - m)) (a :: l)).
  rewrite (reduce_sum_map_ext (fun x => exp (x + d - (m + d)))
                              (fun x => exp (x - m))).
  - lra.
  - intros x _. f_equal. lra.
Qed.

Lemma categorical_log_probs_shift (l : list R) (d : R) :
  l <> [] ->
  categorical_log_probs (map (fun x => x + d) l) = categorical_log_probs l.
Proof.
  intros Hne. unfold categorical_log_probs.
  rewrite (@reduce_logsumexp_shift l d Hne), map_map.
  apply map_ext. intros x. lra.
Qed.

(** X16. The loss sees the logits only up to an additive constant:
    adding [c] to every logit of a row leaves its loss unchanged. *)
Theorem loss_func_logit_shift (D K : Z) (y mus sigs pis : list R) (c : R) :
  (1 <= D)%Z -> (1 <= K)%Z ->
  len y = D -> len mus = (K * D)%Z -> len sigs = (K * D)%Z -> len pis = K ->
  loss_func D K y (mus ++ sigs ++ map (fun x => x + c) pis)
  = loss_func D K y (mus ++ sigs ++ pis).
Proof.
  intros HD HK Hy Hmu Hsig Hpi.
  assert (Hne : pis <> []).
  { intros ->. unfold len in Hpi. simpl in Hpi. lia. }
  assert (Hpi' : len (map (fun x => x + c) pis) = K).
  { unfold len in *. rewrite length_map. exact Hpi. }
  assert (Hp : forall q, len q = K -> len (mus ++ sigs ++ q) = (2 * K * D + K)%Z).
  { intros q Hq. unfold len in *. rewrite !length_app. lia. }
  rewrite (@loss_func_single D K y _ HD HK Hy (Hp _ Hpi')).
  rewrite (@loss_func_single D K y _ HD HK Hy (Hp _ Hpi)).
  unfold row_log_prob.
  rewrite (@mixture_of_row_parts D K mus sigs _ Hmu Hsig Hpi'),
    (@mixture_of_row_parts D K mus sigs _ Hmu Hsig Hpi).
  unfold mixture_log_prob. rewrite (@categorical_log_probs_shift pis c Hne).
  reflexivity.
Qed.

Lemma loss_func_logit_shift_witness :
  loss_func 1 2 [0] ([0; 1] ++ [1; 2] ++ map (fun x => x + 5) [0; 3])
  = loss_func 1 2 [0] ([0; 1] ++ [1; 2] ++ [0; 3]).
Proof.
  apply loss_func_logit_shift; try reflexivity; lia.
Defined.

Lemma combine_app {X Y} (a c : list X) (b d : list Y) :
  List.length a = List.length b ->
  combine (a ++ c) (b ++ d) = combine a b ++ combine c d.
Proof.
  revert b. induction a as [|x a IH]; intros [|y b] Hlen; try discriminate.
  - reflexivity.
  - simpl. rewrite IH by (simpl in Hlen; lia). reflexivity.
Qed.

Lemma reduce_mean_app (l1 l2 : list R) :
  l1 <> [] -> l2 <> [] ->
  reduce_mean (l1 ++ l2)
  = (INR (List.length l1) * reduce_mean l1 + INR (List.length l2) * reduce_mean l2)
    / INR (List.length l1 + List.length l2).
Proof.
  intros H1 H2. unfold reduce_mean. rewrite reduce_sum_app, length_app.
  assert (0 < INR (List.length l1)).
  { apply lt_0_INR. destruct l1; [contradiction|simpl; lia]. }
  assert (0 < INR (List.length l2)).
  { apply lt_0_INR. destruct l2; [contradiction|simpl; lia]. }
  rewrite plus_INR. field. lra.
Qed.

(** X17. The loss of two batches joined is the mean of their losses
    weighted by their numbers of rows. *)
Theorem loss_func_joined_batches (D K : Z) (ys1 ps1 ys2 ps2 : list (list R))
  (loss1 loss2 : R) :
  (1 <= D)%Z -> (1 <= K)%Z ->
  ys1 <> [] -> ys2 <> [] ->
  List.length ys1 = List.length ps1 -> List.length ys2 = List.length ps2 ->
  Forall (fun y => len y = D) (ys1 ++ ys2) ->
  Forall (fun p => len p = (2 * K * D + K)%Z) (ps1 ++ ps2) ->
  loss_func D K (List.concat ys1) (List.concat ps1) = ret loss1 ->
  loss_func D K (List.concat ys2) (List.concat ps2) = ret loss2 ->
  loss_func D K (List.concat (ys1 ++ ys2)) (List.concat (ps1 ++ ps2))
  = ret ((INR (List.length ys1) * loss1 + INR (List.length ys2) * loss2)
         / INR (List.length ys1 + List.length ys2)).
Proof.
  intros HD HK Hne1 Hne2 Hc1 Hc2 Hys Hps H1 H2.
  apply Forall_app in Hys. destruct Hys as [Hys1 Hys2].
  apply Forall_app in Hps. destruct Hps as [Hps1 Hps2].
  rewrite loss_func_rows in H1 by assumption.
  rewrite loss_func_rows in H2 by assumption.
  injection H1 as <-. injection H2 as <-.
  rewrite loss_func_rows; try assumption.
  - rewrite (@combine_app _ _ ys1 ys2 ps1 ps2 Hc1), map_app, reduce_mean_app.
    + rewrite !length_map, !length_combine, <- Hc1, <- Hc2, !Nat.min_id.
      reflexivity.
    + destruct ys1, ps1; try discriminate; try contradiction.
    + destruct ys2, ps2; try discriminate; try contradiction.
  - rewrite !length_app. lia.
  - apply Forall_app. split; assumption.
  - apply Forall_app. split; assumption.
Qed.

End LossLogits.

Section LossJoinedWitness.

Local Open Scope R_scope.

Lemma loss_func_joined_batches_witness :
  loss_func 1 1 (List.concat ([[0]; [2]] ++ [[1]]))
                (List.concat ([[0; 1; 0]; [0; 1; 0]] ++ [[0; 1; 0]]))
  = ret ((INR 2 * reduce_mean [- row_log_prob 1 1 [0] [0; 1; 0];
                               - row_log_prob 1 1 [2] [0; 1; 0]]
          + INR 1 * - row_log_prob 1 1 [1] [0; 1; 0]) / INR (2 + 1)).
Proof.
  apply (@loss_func_joined_batches 1 1 [[0]; [2]] [[0; 1; 0]; [0; 1; 0]]
           [[1]] [[0; 1; 0]]).
  - lia.
  - lia.
  - discriminate.
  - discriminate.
  - reflexivity.
  - reflexivity.
  - repeat constructor.
  - repeat constructor.
  - rewrite loss_func_rows; [reflexivity | lia | lia | reflexivity | |];
      repeat constructor.
  - apply (@loss_func_single 1 1 [1] [0; 1; 0]); [lia | lia | reflexivity | reflexivity].
Defined.

End LossJoinedWitness.

(** ** Shapes that [loss_func] refuses *)

Section LossShapes.

Local Open Scope R_scope.

Lemma tf_reshape_rows_refuses (x : list R) (n : Z) :
  reshape_refused x n ->
  exists msg, tf_reshape_rows x n = raise (InvalidArgumentError msg).
Proof.
  intros Hbad. unfold tf_reshape_rows.
  destruct (Z.ltb_spec n 0); [eexists; reflexivity|].
  destruct (Z.eqb_spec n 0) as [Hz|Hnz].
  - destruct x; [|eexists; reflexivity].
    destruct Hbad as [Hneg|[[_ Hne]|[Hpos _]]]; [lia|contradiction|lia].
  - destruct (Z.eqb_spec (len x mod n) 0); [|eexists; reflexivity].
    destruct Hbad as [Hneg|[[Hz _]|[_ Hmod]]]; [lia|lia|contradiction].
Qed.

Lemma tf_reshape_rows_accepts (x : list R) (n : Z) :
  (0 < n)%Z -> (len x mod n)%Z = 0%Z ->
  exists rows, tf_reshape_rows x n = ret rows.
Proof.
  intros Hn Hmod. unfold tf_reshape_rows.
  destruct (Z.ltb_spec n 0); [lia|]. destruct (Z.eqb_spec n 0); [lia|].
  rewrite Hmod. simpl. eexists. reflexivity.
Qed.

(** X18. [loss_func] ends in an exception when the predictions do not
    fill rows of [n = 2*K*D+K] entries ([n] negative, or [n] positive
    and not a divisor of their number, or [n = 0] and there are
    predictions), and likewise, once the predictions fit, when the
    targets do not fill rows of [D] entries.  A row length of 0 is not
    refused as such: with [output_dim = 0], one component, no target
    entry and one logit the loss is returned, and it is 0. *)
Theorem loss_func_shape_errors (D K : Z) (y_true y_pred : list R) :
  let n := (2 * K * D + K)%Z in
  (reshape_refused y_pred n -> raises (loss_func D K y_true y_pred)) /\
  ((0 < n)%Z -> (len y_pred mod n)%Z = 0%Z -> reshape_refused y_true D ->
   raises (loss_func D K y_true y_pred)) /\
  (forall c, loss_func 0 1 [] [c] = ret 0).
Proof.
  intros n. split; [|split].
  - intros Hbad. destruct (tf_reshape_rows_refuses Hbad) as [msg Hmsg].
    exists (InvalidArgumentError msg). unfold loss_func. fold n.
    rewrite Hmsg. reflexivity.
  - intros Hn Hmod Hbad.
    destruct (tf_reshape_rows_accepts y_pred Hn Hmod) as [rows Hrows].
    destruct (tf_reshape_rows_refuses Hbad) as [msg Hmsg].
    exists (InvalidArgumentError msg). unfold loss_func. fold n.
    rewrite Hrows, bind_ret_l, Hmsg. reflexivity.
  - intros c. unfold loss_func. simpl. unfold ret. do 2 f_equal.
    unfold row_log_prob. simpl.
    unfold mixture_log_prob, categorical_log_probs. simpl.
    rewrite !logsumexp_singleton. field.
Qed.

Lemma loss_func_shape_errors_witness :
  raises (loss_func 1 1 [0] [0; 1; 0; 5]) /\
  raises (loss_func 2 1 [0] [0; 0; 1; 1; 0]) /\
  loss_func 0 1 [] [1] = ret 0.
Proof.
  split; [|split].
  - destruct (@loss_func_shape_errors 1 1 [0] [0; 1; 0; 5]) as (Hpred & _).
    apply Hpred. right; right. split; [reflexivity|discriminate].
  - destruct (@loss_func_shape_errors 2 1 [0] [0; 0; 1; 1; 0]) as (_ & Htrue & _).
    apply Htrue; [reflexivity | reflexivity |].
    right; right. split; [reflexivity|discriminate].
  - destruct (@loss_func_shape_errors 0 1 [] [1]) as (_ & _ & Hzero).
    apply Hzero.
Defined.

End LossShapes.

(** ** [sampling_func]: the layout of the mixture *)

Section SamplingFunc.

Local Open Scope R_scope.

Lemma sampling_func_rows (D K : Z) (ps : list (list R)) :
  (1 <= D)%Z -> (1 <= K)%Z ->
  Forall (fun p => len p = (2 * K * D + K)%Z) ps ->
  sampling_func D K (List.concat ps) = ret (map (sampling_func_mixture D K) ps).
Proof.
  intros HD HK Hps. unfold sampling_func.
  rewrite (tf_reshape_rows_concat (rows := ps)) by (try exact Hps; nia).
  rewrite bind_ret_l, loss_split_fits by nia. reflexivity.
Qed.




(** The components that the TensorFlow code builds from a row are cut
    where the numpy code cuts them. *)
Lemma sampling_func_mixture_layout (D K : Z) (p : list R) :
  (1 <= D)%Z -> (1 <= K)%Z -> len p = (2 * K * D + K)%Z ->
  exists mus sigs pi_logits,
    split_mixture_params p D K = ret (mus, sigs, pi_logits) /\
    fst (sampling_func_mixture D K p) = pi_logits /\
    List.length (snd (sampling_func_mixture D K p)) = Z.to_nat K /\
    forall k, (k < Z.to_nat K)%nat ->
      nth k (snd (sampling_func_mixture D K p)) (MultivariateNormal [] [])
      = MultivariateNormal
          (py_slice mus (Some (Z.of_nat k * D)%Z) (Some ((Z.of_nat k + 1) * D)%Z))
          (diag (map (fun s => s * s)
                     (py_slice sigs (Some (Z.of_nat k * D)%Z)
                                    (Some ((Z.of_nat k + 1) * D)%Z)))).
Proof.
  intros HD HK Hlen. assert (HKD : (1 <= K * D)%Z) by nia.
  destruct (split_mixture_params_lengths p HD HK Hlen) as (Hmu & Hsig & Hpi).
  do 3 eexists. split; [apply split_mixture_params_slices; assumption|].
  set (mus := firstn (Z.to_nat (K * D)) p) in *.
  set (sigs := firstn (Z.to_nat (K * D)) (skipn (Z.to_nat (K * D)) p)) in *.
  set (pis := skipn (Z.to_nat (len p - K)) p) in *.
  assert (Hp : p = mus ++ sigs ++ pis) by (apply row_pieces_app; assumption).
  assert (Hmix : mixture_of_row D K p
                 = (pis, combine (tf_split mus (repeat D (Z.to_nat K)))
                                 (tf_split sigs (repeat D (Z.to_nat K))))).
  { rewrite Hp at 1. apply mixture_of_row_parts; assumption. }
  unfold sampling_func_mixture. rewrite Hmix.
  cbn [fst snd]. split; [reflexivity|]. split.
  - rewrite length_map, length_combine, !length_tf_split, repeat_length.
    apply Nat.min_id.
  - intros k Hk.
    change (MultivariateNormal (@nil R) [])
      with ((fun '(loc, scale) => MultivariateNormal loc (normal_diag_covariance scale))
              (@nil R, @nil R)).
    rewrite map_nth, combine_nth by (rewrite !length_tf_split; reflexivity).
    rewrite !nth_tf_split_repeat by exact Hk.
    rewrite !py_slice_within by nia.
    replace (Z.to_nat ((Z.of_nat k + 1) * D - Z.of_nat k * D)) with (Z.to_nat D) by lia.
    replace (Z.to_nat (Z.of_nat k * D)) with (k * Z.to_nat D)%nat by nia.
    reflexivity.
Qed.

(** X19. On [B] rows of [2*K*D+K] entries [sampling_func] samples each
    row from a mixture of [K] components over that row's logits;
    component [k] is the diagonal normal with mean [mus[k*D:(k+1)*D]] and
    covariance [diag (sigs[k*D:(k+1)*D]^2)], where [mus], [sigs] and the
    logits are the pieces [split_mixture_params] cuts from the row. *)
Theorem sampling_func_layout (D K : Z) (ps : list (list R)) :
  (1 <= D)%Z -> (1 <= K)%Z ->
  Forall (fun p => len p = (2 * K * D + K)%Z) ps ->
  exists mixes,
    sampling_func D K (List.concat ps) = ret mixes /\
    List.length mixes = List.length ps /\
    forall b, (b < List.length ps)%nat ->
      exists mus sigs pi_logits,
        split_mixture_params (nth b ps []) D K = ret (mus, sigs, pi_logits) /\
        fst (nth b mixes ([], [])) = pi_logits /\
        List.length (snd (nth b mixes ([], []))) = Z.to_nat K /\
        forall k, (k < Z.to_nat K)%nat ->
          nth k (snd (nth b mixes ([], []))) (MultivariateNormal [] [])
          = MultivariateNormal
              (py_slice mus (Some (Z.of_nat k * D)%Z) (Some ((Z.of_nat k + 1) * D)%Z))
              (diag (map (fun s => s * s)
                         (py_slice sigs (Some (Z.of_nat k * D)%Z)
                                        (Some ((Z.of_nat k + 1) * D)%Z)))).
Proof.
  intros HD HK Hps. exists (map (sampling_func_mixture D K) ps).
  split; [apply sampling_func_rows; assumption|].
  split; [apply length_map|].
  intros b Hb.
  assert (Hrow : len (nth b ps []) = (2 * K * D + K)%Z).
  { rewrite Forall_forall in Hps. apply Hps, nth_In, Hb. }
  rewrite (nth_indep _ ([], []) (sampling_func_mixture D K []))
    by (rewrite length_map; exact Hb).
  rewrite map_nth. apply sampling_func_mixture_layout; assumption.
Qed.

Lemma sampling_func_layout_witness :
  exists mixes,
    sampling_func 1 2 (List.concat [[1; 2; 3; 4; 0; 0]; [5; 6; 7; 8; 1; 0]])
    = ret mixes /\ List.length mixes = 2%nat.
Proof.
  destruct (@sampling_func_layout 1 2 [[1; 2; 3; 4; 0; 0]; [5; 6; 7; 8; 1; 0]])
    as (mixes & Heq & Hlen & _); [lia | lia | repeat constructor |].
  exists mixes. split; assumption.
Defined.

End SamplingFunc.

(** ** [mse_func]: one value per row *)

Section MseFunc.

Local Open Scope R_scope.

Lemma mse_func_rows (D K : Z) (ys ps samp : list (list R)) :
  (1 <= D)%Z -> (1 <= K)%Z ->
  List.length ys = List.length ps -> List.length samp = List.length ps ->
  Forall (fun y => len y = D) ys ->
  Forall (fun p => len p = (2 * K * D + K)%Z) ps ->
  mse_func D K (List.concat ys) (List.concat ps) samp
  = ret (map row_mse (combine samp ys)).
Proof.
  intros HD HK Hys_ps Hsamp Hys Hps. unfold mse_func.
  rewrite (tf_reshape_rows_concat (rows := ps)) by (try exact Hps; nia).
  rewrite bind_ret_l.
  rewrite (tf_reshape_rows_concat (rows := ys)) by (try exact Hys; lia).
  rewrite bind_ret_l, loss_split_fits by nia.
  unfold broadcast_rows. rewrite Hsamp, Hys_ps, Nat.eqb_refl, bind_ret_l.
  reflexivity.
Qed.

Lemma length_zip_sub (s y : list R) :
  List.length s = List.length y -> List.length (zip_sub s y) = List.length s.
Proof.
  revert y. induction s as [|a s IH]; intros [|b y] Hlen; try discriminate;
    [reflexivity|]. simpl. rewrite IH by (simpl in Hlen; lia). reflexivity.
Qed.

Lemma sum_squares_nonneg (l : list R) : 0 <= reduce_sum (map (fun d => d * d) l).
Proof.
  unfold reduce_sum. induction l as [|d l IH]; simpl; [lra|].
  pose proof (Rle_0_sqr d) as Hsq. unfold Rsqr in Hsq. lra.
Qed.

Lemma zip_sub_diag (s : list R) :
  map (fun d => d * d) (zip_sub s s) = repeat 0 (List.length s).
Proof.
  induction s as [|a s IH]; [reflexivity|].
  simpl. rewrite IH. f_equal. lra.
Qed.

Lemma reduce_sum_zeros (n : nat) : reduce_sum (repeat 0 n) = 0.
Proof. induction n as [|n IH]; simpl; [|rewrite IH]; lra. Qed.

Lemma row_mse_nonneg (s y : list R) :
  0 <= row_mse (s, y) /\ (s = y -> row_mse (s, y) = 0).
Proof.
  unfold row_mse, reduce_mean. split.
  - pose proof (sum_squares_nonneg (zip_sub s y)) as Hpos.
    pose proof (pos_INR (List.length (map (fun d => d * d) (zip_sub s y)))) as Hn.
    destruct Hn as [Hn|Hn].
    + apply Rmult_le_pos; [exact Hpos|]. apply Rlt_le, Rinv_0_lt_compat, Hn.
    + rewrite <- Hn. unfold Rdiv. rewrite Rinv_0. lra.
  - intros ->. rewrite zip_sub_diag, reduce_sum_zeros. unfold Rdiv. lra.
Qed.

(** X20. On [B] rows [mse_func] returns [B] values, one per row and not
    their mean: the mean over the [D] dimensions of the squared
    difference between the row's sample and its target.  Each value is
    non-negative, and it is 0 when sample and target agree. *)
Theorem mse_func_per_row (D K : Z) (ys ps samp : list (list R)) :
  (1 <= D)%Z -> (1 <= K)%Z ->
  List.length ys = List.length ps -> List.length samp = List.length ps ->
  Forall (fun y => len y = D) ys ->
  Forall (fun p => len p = (2 * K * D + K)%Z) ps ->
  Forall (fun s => len s = D) samp ->
  exists mse,
    mse_func D K (List.concat ys) (List.concat ps) samp = ret mse /\
    List.length mse = List.length ps /\
    forall b, (b < List.length ps)%nat ->
      nth b mse 0
      = fold_right Rplus 0
          (map (fun d => d * d) (zip_sub (nth b samp []) (nth b ys [])))
        / IZR D /\
      0 <= nth b mse 0 /\
      (nth b samp [] = nth b ys [] -> nth b mse 0 = 0).
Proof.
  intros HD HK Hys_ps Hsamp Hys Hps Hs.
  exists (map row_mse (combine samp ys)).
  split; [apply mse_func_rows; assumption|].
  split; [rewrite length_map, length_combine; lia|].
  intros b Hb.
  assert (Hnth : nth b (map row_mse (combine samp ys)) 0
                 = row_mse (nth b samp [], nth b ys [])).
  { rewrite (nth_indep _ 0 (row_mse ([], [])))
      by (rewrite length_map, length_combine; lia).
    rewrite map_nth, combine_nth by lia. reflexivity. }
  assert (Hls : len (nth b samp []) = D).
  { rewrite Forall_forall in Hs. apply Hs, nth_In. lia. }
  assert (Hly : len (nth b ys []) = D).
  { rewrite Forall_forall in Hys. apply Hys, nth_In. lia. }
  assert (Hlen : List.length (nth b samp []) = List.length (nth b ys [])).
  { unfold len in *. lia. }
  rewrite Hnth. split; [|apply row_mse_nonneg].
  unfold row_mse, reduce_mean, reduce_sum.
  rewrite length_map, length_zip_sub by exact Hlen.
  rewrite INR_IZR_INZ. unfold len in Hls. rewrite Hls. reflexivity.
Qed.

Lemma mse_func_per_row_witness :
  exists mse,
    mse_func 1 1 (List.concat [[0]; [1]]) (List.concat [[0; 1; 0]; [0; 1; 0]])
             [[3]; [1]] = ret mse /\
    List.length mse = 2%nat /\
    nth 0 mse 0 = fold_right Rplus 0 [(3 - 0) * (3 - 0)] / 1 /\
    nth 1 mse 0 = 0.
Proof.
  destruct (@mse_func_per_row 1 1 [[0]; [1]] [[0; 1; 0]; [0; 1; 0]] [[3]; [1]])
    as (mse & Heq & Hlen & Hrows);
    [lia | lia | reflexivity | reflexivity | | | |]; try (repeat constructor).
  exists mse. split; [exact Heq|]. split; [exact Hlen|]. split.
  - apply (Hrows 0%nat). simpl. lia.
  - apply (Hrows 1%nat); [simpl; lia|reflexivity].
Defined.

End MseFunc.

(** ** [create_mdn_layers]: the layout it produces and the sign of the scales *)

Section Layers.

Local Open Scope R_scope.



Lemma firstn_app_exact {X} (a b : list X) (n : nat) :
  n = List.length a -> firstn n (a ++ b) = a.
Proof.
  intros ->. rewrite firstn_app, Nat.sub_diag, firstn_all, firstn_O.
  apply app_nil_r.
Qed.

Lemma skipn_app_exact {X} (a b : list X) (n : nat) :
  n = List.length a -> skipn n (a ++ b) = b.
Proof.
  intros ->. rewrite skipn_app, Nat.sub_diag, skipn_all, skipn_O. reflexivity.
Qed.



End Layers.

Section LayersWitness.

Local Open Scope R_scope.


End LayersWitness.


(** ** A vector that is too short and is sampled from all the same *)

Section ShortVector.

Context {A : Type} `{Arith A} `{Exp A}.

Lemma identity_times_single (s : A) (D : Z) :
  (2 <= D)%Z ->
  exists ident,
    np_identity D = ret ident /\
    np_mul_2d_1d ident [s] = ret (identity_scaled (repeat s (Z.to_nat D))).
Proof.
  intros HD. unfold np_identity. destruct (Z.ltb_spec D 0); [lia|].
  eexists. split; [reflexivity|].
  unfold np_mul_2d_1d. rewrite ncols_square. simpl List.length.
  destruct (Nat.eqb_spec (Z.to_nat D) 1); [lia|]. simpl Nat.eqb.
  unfold ret, identity_scaled. rewrite repeat_length. do 2 f_equal. rewrite map_map.
  apply map_ext_in. intros i Hi. apply in_seq in Hi. rewrite map_map.
  apply map_ext_in. intros j Hj. apply in_seq in Hj. cbn [hd].
  rewrite nth_repeat_lt by lia. reflexivity.
Qed.

(** X24. With [num_mixes = 1] and [output_dim = D >= 2], a vector of only
    [D + 1] entries (where [2*D+1] are expected) is sampled from without
    any error whenever the sampler selects the one component: its last
    entry serves as the one logit and, stretched by numpy over all
    dimensions, as every sigma. *)
Theorem sample_from_output_short_vector (mu : list A) (c : A) (D : Z)
  (temp sigma_temp r : A) (pis : list A) :
  (2 <= D)%Z -> len mu = D ->
  softmax [c] temp = ret pis ->
  sample_from_categorical pis r = ret 0%Z ->
  len (mu ++ [c]) <> (2 * 1 * D + 1)%Z /\
  sample_from_output (mu ++ [c]) D 1 temp sigma_temp r
  = ret (MultivariateNormal mu
           (identity_scaled (repeat (n_mul c sigma_temp) (Z.to_nat D)))).
Proof.
  intros HD Hmu Hsoft Hcat.
  assert (Hlen : len (mu ++ [c]) = (D + 1)%Z).
  { unfold len in *. rewrite length_app. simpl. lia. }
  split; [lia|].
  assert (Hsplit : split_mixture_params (mu ++ [c]) D 1 = ret (mu, [c], [c])).
  { unfold split_mixture_params.
    replace (1 * D)%Z with D by lia. replace (2 * 1 * D)%Z with (2 * D)%Z by lia.
    rewrite py_slice_prefix by lia.
    rewrite py_slice_suffix by lia.
    unfold py_slice, slice_index.
    destruct (Z.ltb_spec D 0); [lia|]. destruct (Z.ltb_spec (2 * D) 0); [lia|].
    rewrite Hlen. rewrite (Z.min_r (2 * D) (D + 1)), (Z.min_l D (D + 1)) by lia.
    replace (Z.to_nat (D + 1 - D)) with 1%nat by lia.
    replace (Z.to_nat (D + 1 - 1)) with (Z.to_nat D) by lia.
    rewrite (@firstn_app_exact _ mu [c]) by (unfold len in Hmu; lia).
    rewrite (@skipn_app_exact _ mu [c]) by (unfold len in Hmu; lia).
    reflexivity. }
  unfold sample_from_output.
  rewrite Hsplit, bind_ret_l, Hsoft, bind_ret_l, Hcat, bind_ret_l.
  unfold draw_from_component.
  replace (0 * D)%Z with 0%Z by lia. replace ((0 + 1) * D)%Z with D by lia.
  assert (Hmus : py_slice mu (Some 0%Z) (Some D) = mu).
  { rewrite py_slice_within by lia. rewrite Z.sub_0_r. simpl skipn.
    apply firstn_all2. unfold len in Hmu. lia. }
  assert (Hsig : py_slice [c] (Some 0%Z) (Some D) = [c]).
  { unfold py_slice, slice_index. simpl Z.ltb.
    destruct (Z.ltb_spec D 0); [lia|].
    change (len [c]) with 1%Z. rewrite (Z.min_r D 1), (Z.min_l 0 1) by lia. reflexivity. }
  rewrite Hmus, Hsig. unfold np_scale. cbn [map].
  destruct (@identity_times_single (n_mul c sigma_temp) D HD) as (ident & Hid & Hcov).
  rewrite Hid, bind_ret_l, Hcov, bind_ret_l.
  unfold np_random_multivariate_normal.
  rewrite length_identity_scaled, ncols_identity_scaled, repeat_length, Nat.eqb_refl.
  simpl negb.
  replace (List.length mu) with (Z.to_nat D) by (unfold len in Hmu; lia).
  rewrite Nat.eqb_refl. simpl negb.
  destruct (Nat.eqb_spec (Z.to_nat D) 0); [lia|reflexivity].
Qed.

End ShortVector.

(** In binary64, at temperature 1. *)
Lemma sample_from_output_short_vector_witness :
  sample_from_output ([5; 6] ++ [3])%float 2 1 1%float 1%float 0.5%float
  = ret (MultivariateNormal [5; 6]%float [[3; 0]; [0; 3]]%float).
Proof.
  destruct (@sample_from_output_short_vector float binary64_arith
              binary64_exp_instance [5; 6]%float 3%float 2 1%float 1%float
              0.5%float [1%float])
    as (_ & Hlaw);
    [lia | reflexivity | vm_compute; reflexivity | vm_compute; reflexivity |].
  rewrite Hlaw. vm_compute. reflexivity.
Defined.
